(** * gsql: the lazy single-value cache and the typed row iterator

    A shallow embedding of [sql.go] (package [gsql]) and of its older copy
    [pkg/sql.go].  Go's [error] interface is an [option]: [None] is [nil].
    A Go slice is an [option (list _)]: [None] is the nil slice.  The
    database driver ([database/sql], [sqlx]) is outside the package and is
    represented by a small cursor model, see [Rows]. *)

From Stdlib Require Import String.
From stdpp Require Import list.

Set Default Proof Using "Type".

(** ** sync.RWMutex

    [readers] counts the holders of the shared lock, [writer] tells whether
    the exclusive lock is held.  An operation that cannot proceed yields
    [None]: [RLock] and [Lock] because the caller has to wait, [RUnlock] and
    [Unlock] because the Go runtime aborts when a lock that is not held is
    released.  Go additionally makes new readers wait behind a waiting
    writer; that only removes interleavings, so what is proved of every
    interleaving of this model holds for Go's lock too, and since a holder
    of the lock is never made to wait, callers do not get stuck there
    either. *)
Module RWMutex.

Record t : Type := Build { readers : nat; writer : bool }.

(** The zero value of [sync.RWMutex]: nobody holds it. *)
Definition zero : t := {| readers := 0; writer := false |}.

Definition RLock (m : t) : option t :=
  if writer m then None
  else Some {| readers := S (readers m); writer := false |}.

Definition RUnlock (m : t) : option t :=
  match readers m with
  | O => None
  | S n => Some {| readers := n; writer := writer m |}
  end.

Definition Lock (m : t) : option t :=
  if writer m then None
  else match readers m with
       | O => Some {| readers := 0; writer := true |}
       | S _ => None
       end.

Definition Unlock (m : t) : option t :=
  if writer m then Some {| readers := readers m; writer := false |}
  else None.

End RWMutex.

(** ** Cache *)
Module Cache.
Section Defs.
Context {T E Ctx World : Type}.

(** The factory is a Go closure: besides its context argument it reads (and
    may change) whatever it captured, the database first of all.  [World]
    stands for that external state. *)
Definition Factory : Type := Ctx -> World -> (T * option E) * World.

(** [type Cache[T any] struct { lock; data; valid; factory }] *)
Record Cache : Type := Build {
  lock : RWMutex.t;
  data : T;
  valid : bool;
  factory : Factory;
}.

(** What a method of [*Cache] runs against: the struct behind the pointer
    [ct], the external world of the factory, and a ghost [trace] of the
    factory invocations made so far (context and result of each). *)
Record State : Type := MkState {
  ct : Cache;
  world : World;
  trace : list (Ctx * (T * option E));
}.

(** Number of factory invocations so far. *)
Definition calls (s : State) : nat := length (trace s).

(** A computation on the state; [None]: it does not return (it waits for
    the lock for ever, or the runtime aborts on a misused lock). *)
Definition M (A : Type) : Type := State -> option (A * State).

Definition ret {A} (a : A) : M A := fun s => Some (a, s).

Definition bind {A B} (m : M A) (k : A -> M B) : M B :=
  fun s => match m s with
           | Some (a, s') => k a s'
           | None => None
           end.

Definition with_lock (f : RWMutex.t -> option RWMutex.t) : M unit :=
  fun s =>
    match f (lock (ct s)) with
    | Some l =>
        Some (tt, {| ct := {| lock := l; data := data (ct s);
                              valid := valid (ct s);
                              factory := factory (ct s) |};
                     world := world s; trace := trace s |})
    | None => None
    end.

Definition lock_RLock : M unit := with_lock RWMutex.RLock.
Definition lock_RUnlock : M unit := with_lock RWMutex.RUnlock.
Definition lock_Lock : M unit := with_lock RWMutex.Lock.
Definition lock_Unlock : M unit := with_lock RWMutex.Unlock.

(** [ct.valid] and [ct.data], read *)
Definition get_valid : M bool := fun s => Some (valid (ct s), s).
Definition get_data : M T := fun s => Some (data (ct s), s).

(** [ct.data = v] *)
Definition set_data (v : T) : M unit :=
  fun s => Some (tt, {| ct := {| lock := lock (ct s); data := v;
                                 valid := valid (ct s);
                                 factory := factory (ct s) |};
                        world := world s; trace := trace s |}).

(** [ct.valid = b] *)
Definition set_valid (b : bool) : M unit :=
  fun s => Some (tt, {| ct := {| lock := lock (ct s); data := data (ct s);
                                 valid := b;
                                 factory := factory (ct s) |};
                        world := world s; trace := trace s |}).

(** [ct.factory(ctx)] *)
Definition call_factory (ctx : Ctx) : M (T * option E) :=
  fun s =>
    let '(r, w) := factory (ct s) ctx (world s) in
    Some (r, {| ct := ct s; world := w; trace := trace s ++ [(ctx, r)] |}).

End Defs.

Arguments Cache : clear implicits.
Arguments State : clear implicits.
Arguments Factory : clear implicits.

Declare Scope cache_scope.
Delimit Scope cache_scope with cache.
Notation "x <- m ;; k" := (bind m (fun x => k))
  (at level 100, m at next level, right associativity) : cache_scope.
Notation "m ;;; k" := (bind m (fun _ => k))
  (at level 100, right associativity) : cache_scope.

Section Methods.
Context {T E Ctx World : Type}.
Local Abbreviation M := (@M T E Ctx World).
Local Open Scope cache_scope.

(** [func NewCache[T any](factory ...) *Cache[T]]: every other field has
    its zero value, [zero] for [data]. *)
Definition NewCache (zero : T) (factory : Factory T E Ctx World)
  : Cache T E Ctx World :=
  {| lock := RWMutex.zero; data := zero; valid := false; factory := factory |}.

(** The part of [Get] that runs with the exclusive lock held (the deferred
    [Unlock] follows it on each of its three returns). *)
Definition Get_locked (ctx : Ctx) : M (T * option E) :=
  v <- get_valid ;;
  if v then
    d <- get_data ;; ret (d, None)
  else
    r <- call_factory ctx ;;
    match snd r with
    | Some err => d <- get_data ;; ret (d, Some err)
    | None =>
        set_data (fst r) ;;;
        set_valid true ;;;
        d <- get_data ;; ret (d, None)
    end.

(** [func (ct *Cache[T]) Get(ctx context.Context) (T, error)] *)
Definition Get (ctx : Ctx) : M (T * option E) :=
  lock_RLock ;;;
  valid <- get_valid ;;
  data <- get_data ;;
  lock_RUnlock ;;;
  if valid then ret (data, None)
  else
    lock_Lock ;;;
    r <- Get_locked ctx ;;
    lock_Unlock ;;;
    ret r.

(** [func (ct *Cache[T]) Refresh(ctx context.Context) error] *)
Definition Refresh (ctx : Ctx) : M (option E) :=
  lock_Lock ;;;
  res <- (r <- call_factory ctx ;;
          match snd r with
          | Some err => ret (Some err)
          | None =>
              set_data (fst r) ;;;
              set_valid true ;;;
              ret None
          end) ;;
  lock_Unlock ;;;
  ret res.

(** [func (ct *Cache[T]) Invalidate()] *)
Definition Invalidate : M unit :=
  lock_Lock ;;;
  set_valid false ;;;
  lock_Unlock.

(** The external source changes behind the back of the cache. *)
Definition mutate (m : World -> World) : M unit :=
  fun s => Some (tt, {| ct := ct s; world := m (world s); trace := trace s |}).

(** A caller that calls [Get] once per element of [reqs], the external
    source changing before each call; the results in order. *)
Fixpoint Gets (reqs : list ((World -> World) * Ctx)) : M (list (T * option E)) :=
  match reqs with
  | [] => ret []
  | (m, ctx) :: rest =>
      mutate m ;;;
      r <- Get ctx ;;
      rs <- Gets rest ;;
      ret (r :: rs)
  end.

End Methods.

(** *** Concurrent callers of [Get]

    A call of [Get] is cut at every access to the lock and to the shared
    fields [ct.valid] and [ct.data]; [PC] names the statement the caller
    executes next and carries its local variables. *)
Section Threads.
Context {T E Ctx World : Type}.
Local Abbreviation M := (@M T E Ctx World).
Local Open Scope cache_scope.

Inductive PC : Type :=
| AtRLock                               (* ct.lock.RLock() *)
| AtReadValid                           (* valid := ct.valid *)
| AtReadData (valid : bool)             (* data := ct.data *)
| AtRUnlock (valid : bool) (data : T)   (* ct.lock.RUnlock(); if valid {return data, nil} *)
| AtLock                                (* ct.lock.Lock(); defer ct.lock.Unlock() *)
| AtRecheck                             (* if ct.valid {return ct.data, nil} *)
| AtFactory                             (* value, err := ct.factory(ctx); if err != nil {return ct.data, err} *)
| AtStoreData (value : T)               (* ct.data = value *)
| AtStoreValid                          (* ct.valid = true; return ct.data, nil *)
| AtUnlock (r : T * option E)           (* the deferred ct.lock.Unlock(), results set *)
| Returned (r : T * option E).

(** One statement of the caller whose context argument is [ctx]. *)
Definition step_pc (ctx : Ctx) (pc : PC) : M PC :=
  match pc with
  | AtRLock => lock_RLock ;;; ret AtReadValid
  | AtReadValid => v <- get_valid ;; ret (AtReadData v)
  | AtReadData v => d <- get_data ;; ret (AtRUnlock v d)
  | AtRUnlock v d =>
      lock_RUnlock ;;; ret (if v then Returned (d, None) else AtLock)
  | AtLock => lock_Lock ;;; ret AtRecheck
  | AtRecheck =>
      v <- get_valid ;;
      if v then d <- get_data ;; ret (AtUnlock (d, None))
      else ret AtFactory
  | AtFactory =>
      r <- call_factory ctx ;;
      match snd r with
      | Some err => d <- get_data ;; ret (AtUnlock (d, Some err))
      | None => ret (AtStoreData (fst r))
      end
  | AtStoreData value => set_data value ;;; ret AtStoreValid
  | AtStoreValid =>
      set_valid true ;;; d <- get_data ;; ret (AtUnlock (d, None))
  | AtUnlock r => lock_Unlock ;;; ret (Returned r)
  | Returned _ => fun _ => None
  end.

(** A caller: the context it passed to [Get] and where it stands. *)
Definition Thread : Type := Ctx * PC.

(** The cache, the world and the callers that share the cache. *)
Definition Config : Type := State T E Ctx World * list Thread.

(** Caller number [i] executes its next statement; [None] when there is no
    such caller, when it has returned, or when it has to wait. *)
Definition step (i : nat) (c : Config) : option Config :=
  match snd c !! i with
  | Some (ctx, pc) =>
      match step_pc ctx pc (fst c) with
      | Some (pc', s') => Some (s', <[i := (ctx, pc')]> (snd c))
      | None => None
      end
  | None => None
  end.

(** A schedule names the caller that moves at each instant. *)
Fixpoint run (sch : list nat) (c : Config) : option Config :=
  match sch with
  | [] => Some c
  | i :: sch' =>
      match step i c with
      | Some c' => run sch' c'
      | None => None
      end
  end.

(** A fresh cache and one caller of [Get] per context of [ctxs], none of
    which has started. *)
Definition fresh (zero : T) (f : Factory T E Ctx World) (w0 : World)
    (ctxs : list Ctx) : Config :=
  ({| ct := NewCache zero f; world := w0; trace := [] |},
   map (fun c => (c, AtRLock)) ctxs).

Definition returned (t : Thread) : bool :=
  match snd t with Returned _ => true | _ => false end.

(** Holders of the shared lock and of the exclusive lock. *)
Definition in_rs (t : Thread) : bool :=
  match snd t with
  | AtReadValid | AtReadData _ | AtRUnlock _ _ => true
  | _ => false
  end.

Definition in_cs (t : Thread) : bool :=
  match snd t with
  | AtRecheck | AtFactory | AtStoreData _ | AtStoreValid | AtUnlock _ => true
  | _ => false
  end.

Fixpoint count {A} (p : A -> bool) (l : list A) : nat :=
  match l with
  | [] => 0
  | x :: l' => (if p x then 1 else 0) + count p l'
  end.

(** Statements a caller has still to execute, at most. *)
Definition rank (t : Thread) : nat :=
  match snd t with
  | AtRLock => 10
  | AtReadValid => 9
  | AtReadData _ => 8
  | AtRUnlock _ _ => 7
  | AtLock => 6
  | AtRecheck => 5
  | AtFactory => 4
  | AtStoreData _ => 3
  | AtStoreValid => 2
  | AtUnlock _ => 1
  | Returned _ => 0
  end.

Definition total_rank (ts : list Thread) : nat := sum_list_with rank ts.

(** The property of a fresh cache shared by the callers [ctxs]: however
    they are scheduled, once all of them have returned the factory has
    been invoked exactly once and all of them hold the same value and no
    error. *)
Definition single_fill (zero : T) (f : Factory T E Ctx World) (w0 : World)
    (ctxs : list Ctx) : Prop :=
  forall sch s ts,
    run sch (fresh zero f w0 ctxs) = Some (s, ts) ->
    forallb returned ts = true ->
    calls s = 1 /\
    exists v, forall t, t ∈ ts -> snd t = Returned (v, None).

(** **** Invariants of the callers of a cache whose factory succeeds when
    it is first invoked, in the world [w0]. *)
Section Invariant.
Variable f : Factory T E Ctx World.
Variable w0 : World.

Definition succeeds (ctx : Ctx) : Prop := snd (fst (f ctx w0)) = None.

(** What a caller knows about the cache at each statement. *)
Definition thread_ok (s : State T E Ctx World) (t : Thread) : Prop :=
  succeeds (fst t) /\
  match snd t with
  | AtRLock | AtReadValid | AtLock => True
  | AtReadData v => v = true -> valid (ct s) = true
  | AtRUnlock v d => v = true -> valid (ct s) = true /\ d = data (ct s)
  | AtRecheck => trace s = [] \/ valid (ct s) = true
  | AtFactory => trace s = []
  | AtStoreData v =>
      valid (ct s) = false /\ exists c, trace s = [(c, (v, None))]
  | AtStoreValid =>
      valid (ct s) = false /\ exists c, trace s = [(c, (data (ct s), None))]
  | AtUnlock r | Returned r => r = (data (ct s), None) /\ valid (ct s) = true
  end.

(** What holds of the cache itself. *)
Definition cache_ok (s : State T E Ctx World) : Prop :=
  factory (ct s) = f /\
  (trace s = [] -> valid (ct s) = false /\ world s = w0) /\
  (valid (ct s) = true -> exists c, trace s = [(c, (data (ct s), None))]) /\
  Forall (fun e => snd e = fst (f (fst e) w0)) (trace s) /\
  length (trace s) <= 1 /\
  (trace s <> [] -> valid (ct s) = false ->
   RWMutex.writer (lock (ct s)) = true).

(** The lock agrees with the callers that hold it. *)
Definition lock_ok (c : Config) : Prop :=
  count in_cs (snd c)
    = (if RWMutex.writer (lock (ct (fst c))) then 1 else 0) /\
  count in_rs (snd c) = RWMutex.readers (lock (ct (fst c))) /\
  (RWMutex.writer (lock (ct (fst c))) = true ->
   RWMutex.readers (lock (ct (fst c))) = 0).

Definition Inv (c : Config) : Prop :=
  cache_ok (fst c) /\ lock_ok c /\ Forall (thread_ok (fst c)) (snd c).

End Invariant.
End Threads.

Arguments PC : clear implicits.
Arguments Thread : clear implicits.
Arguments Config : clear implicits.

(** *** A user of the cache, one call after the other *)
Section Calls.
Context {T E Ctx World : Type}.
Local Abbreviation M := (@M T E Ctx World).
Local Open Scope cache_scope.

(** What can happen to a cache between its creation and now: a call of
    one of its three methods, or a change of the external source. *)
Inductive Call : Type :=
| CallGet (ctx : Ctx)
| CallRefresh (ctx : Ctx)
| CallInvalidate
| SourceChange (m : World -> World).

Definition call (c : Call) : M unit :=
  match c with
  | CallGet ctx => Get ctx ;;; ret tt
  | CallRefresh ctx => Refresh ctx ;;; ret tt
  | CallInvalidate => Invalidate
  | SourceChange m => mutate m
  end.

Fixpoint calls_in_turn (cs : list Call) : M unit :=
  match cs with
  | [] => ret tt
  | c :: cs' => call c ;;; calls_in_turn cs'
  end.

(** The value of the latest factory invocation on record that returned no
    error. *)
Fixpoint last_success (tr : list (Ctx * (T * option E))) : option T :=
  match tr with
  | [] => None
  | (_, (v, e)) :: tr' =>
      match last_success tr' with
      | Some v' => Some v'
      | None => match e with None => Some v | Some _ => None end
      end
  end.

(** Between two calls: the lock is free, the factory is [f], and a valid
    cache holds the value of the latest successful invocation. *)
Definition settled (f : Factory T E Ctx World) (s : State T E Ctx World)
  : Prop :=
  lock (ct s) = RWMutex.zero /\
  factory (ct s) = f /\
  (valid (ct s) = true -> last_success (trace s) = Some (data (ct s))).

End Calls.
Arguments Call : clear implicits.

(** *** What holds of concurrent callers of [Get] whatever the factory
    does *)
Section AnyFactory.
Context {T E Ctx World : Type}.

(** Callers that are past their invocation of the factory, or have
    returned without one. *)
Definition past_factory (t : Thread T E Ctx) : bool :=
  match snd t with
  | AtStoreData _ | AtStoreValid | AtUnlock _ | Returned _ => true
  | _ => false
  end.

(** The results of a caller are sound: with no error they are the value
    of a valid cache, with an error the factory returned that error to
    this caller. *)
Definition result_sound (s : State T E Ctx World) (ctx : Ctx)
    (r : T * option E) : Prop :=
  match snd r with
  | None => valid (ct s) = true /\ fst r = data (ct s)
  | Some e => exists v, (ctx, (v, Some e)) ∈ trace s
  end.

Definition thread_sound (s : State T E Ctx World) (t : Thread T E Ctx)
  : Prop :=
  match snd t with
  | AtRLock | AtReadValid | AtLock | AtRecheck => True
  | AtReadData v => v = true -> valid (ct s) = true
  | AtRUnlock v d => v = true -> valid (ct s) = true /\ d = data (ct s)
  | AtFactory => valid (ct s) = false
  | AtStoreData v => valid (ct s) = false /\ (fst t, (v, None)) ∈ trace s
  | AtStoreValid =>
      valid (ct s) = false /\ (fst t, (data (ct s), None)) ∈ trace s
  | AtUnlock r | Returned r => result_sound s (fst t) r
  end.

(** A valid cache holds a value that an invocation on record produced. *)
Definition cache_sound (s : State T E Ctx World) : Prop :=
  valid (ct s) = true -> exists c, (c, (data (ct s), None)) ∈ trace s.

Definition Sound (cf : Config T E Ctx World) : Prop :=
  cache_sound (fst cf) /\
  lock_ok cf /\
  Forall (thread_sound (fst cf)) (snd cf) /\
  calls (fst cf) <= count past_factory (snd cf).

End AnyFactory.
End Cache.

(** ** The cursor behind an iterator

    [*sqlx.Rows] belongs to the driver, not to this package.  It is
    represented by what the iterator can observe of it: the rows still to be
    fetched, each of which either scans into a value or fails to, the row
    [Next] stopped at, the error [Err] reports, the error the driver ends
    the iteration with after the last row ([None]: plain end of data), and
    the number of times [Close] has been called. *)
Module Cursor.
Section Defs.
Context {T E : Type}.

Inductive Row : Type :=
| ScanOk (v : T)
| ScanFail (partial : T) (e : E).

Record t : Type := Build {
  pending : list Row;
  current : option Row;
  lasterr : option E;
  fault : option E;
  closes : nat;
}.

(** [rows.Next()]: a closed cursor has no further row. *)
Definition Next (c : t) : bool * t :=
  match closes c with
  | S _ => (false, c)
  | O =>
      match pending c with
      | r :: rest =>
          (true, {| pending := rest; current := Some r; lasterr := lasterr c;
                    fault := fault c; closes := closes c |})
      | [] =>
          (false, {| pending := []; current := None; lasterr := fault c;
                     fault := fault c; closes := closes c |})
      end
  end.

(** [rows.Err()] *)
Definition Err (c : t) : option E := lasterr c.

(** [rows.StructScan(&dest)]: the scanned value (or what a failed scan
    left in [dest]) and the error.  [noRow] is the driver's error for a
    scan without a current row. *)
Definition StructScan (noRow : E) (c : t) (dest : T) : T * option E :=
  match current c with
  | Some (ScanOk v) => (v, None)
  | Some (ScanFail partial e) => (partial, Some e)
  | None => (dest, Some noRow)
  end.

(** [rows.Close()] *)
Definition Close (c : t) : option E * t :=
  (None, {| pending := pending c; current := current c;
            lasterr := lasterr c; fault := fault c; closes := S (closes c) |}).

(** A cursor just opened on the given rows. *)
Definition open (rs : list Row) (end_err : option E) : t :=
  {| pending := rs; current := None; lasterr := None; fault := end_err;
     closes := 0 |}.

End Defs.
Arguments Row : clear implicits.
Arguments t : clear implicits.
End Cursor.

(** A Go slice: [None] is the nil slice, [Some []] an empty one that is not
    nil. *)
Definition slice (A : Type) : Type := option (list A).

(** [append(s, x)] *)
Definition append {A} (s : slice A) (x : A) : slice A :=
  match s with
  | None => Some [x]
  | Some l => Some (l ++ [x])
  end.

(** A call either returns or panics (here: a nil pointer dereference). *)
Inductive outcome (A : Type) : Type :=
| Panics
| Returns (a : A).
Arguments Panics {A}.
Arguments Returns {A} a.

(** ** Iterator *)
Module Iterator.
Section Defs.
Context {T E : Type}.

(** [type Iterator[T any] struct { err error; rows *sqlx.Rows }]; the
    iterator is the only owner of the cursor, which is kept by value:
    [rows = None] is the nil pointer. *)
Record Iterator : Type := Build {
  err : option E;
  rows : option (Cursor.t T E);
}.

(** A method of [*Iterator]: its outcome and the iterator afterwards. *)
Definition Method (A : Type) : Type := Iterator -> outcome A * Iterator.

(** [func (it *Iterator[T]) Next() bool] *)
Definition Next : Method bool :=
  fun it =>
    match err it with
    | Some _ => (Returns false, it)
    | None =>
        match rows it with
        | None => (Panics, it)
        | Some c =>
            let '(b, c') := Cursor.Next c in
            (Returns b, {| err := err it; rows := Some c' |})
        end
    end.

(** [func (it *Iterator[T]) Err() error] *)
Definition Err : Method (option E) :=
  fun it =>
    match err it with
    | Some e => (Returns (Some e), it)
    | None =>
        match rows it with
        | None => (Panics, it)
        | Some c => (Returns (Cursor.Err c), it)
        end
    end.

(** [func (it *Iterator[T]) Close() error] *)
Definition Close : Method (option E) :=
  fun it =>
    match rows it with
    | None => (Panics, it)
    | Some c =>
        let '(e, c') := Cursor.Close c in
        (Returns e, {| err := err it; rows := Some c' |})
    end.

Section Scanning.
(** The zero value of [T] ([var result T]) and the driver's error for a
    scan without a current row. *)
Variable zero : T.
Variable noRow : E.

(** [func (it *Iterator[T]) Get() (T, error)] *)
Definition Get : Method (T * option E) :=
  fun it =>
    match rows it with
    | None => (Panics, it)
    | Some c =>
        match Cursor.Err c with
        | Some e => (Returns (zero, Some e), it)
        | None => (Returns (Cursor.StructScan noRow c zero), it)
        end
    end.

(** The loop of [Collect]; [None] when [fuel] iterations do not finish
    it. *)
Fixpoint Collect_loop (fuel : nat) (result : slice T) (it : Iterator)
  : option (outcome (slice T * option E) * Iterator) :=
  match fuel with
  | O => None
  | S fuel' =>
      match Next it with
      | (Panics, it1) => Some (Panics, it1)
      | (Returns true, it1) =>
          match Get it1 with
          | (Panics, it2) => Some (Panics, it2)
          | (Returns (r, Some e), it2) => Some (Returns (None, Some e), it2)
          | (Returns (r, None), it2) => Collect_loop fuel' (append result r) it2
          end
      | (Returns false, it1) =>
          match Err it1 with
          | (Panics, it2) => Some (Panics, it2)
          | (Returns e, it2) => Some (Returns (result, e), it2)
          end
      end
  end.

(** The loop stops after one more test than there are rows to fetch. *)
Definition enough (it : Iterator) : nat :=
  match rows it with
  | Some c => S (length (Cursor.pending c))
  | None => 1
  end.

(** [func (it *Iterator[T]) Collect() ([]T, error)] of [sql.go]:
    [defer it.Close()] runs when the body has returned or panicked; its
    result is dropped, its panic is not. *)
Definition Collect (it : Iterator)
  : option (outcome (slice T * option E) * Iterator) :=
  match Collect_loop (enough it) None it with
  | None => None
  | Some (res, it1) =>
      match Close it1 with
      | (Panics, it2) => Some (Panics, it2)
      | (Returns _, it2) => Some (res, it2)
      end
  end.

(** An error is on record for [it]: one was stored when the iterator was
    made, or an earlier call of [Get] on it failed and left it as it is. *)
Definition recorded (it : Iterator) : Prop :=
  err it <> None \/
  exists it0 r e, Get it0 = (Returns (r, Some e), it).

(** [Next] on an iterator with an error on record answers [false] and
    leaves the iterator, cursor included, as it is. *)
Definition stops_when_recorded : Prop :=
  forall it, recorded it -> Next it = (Returns false, it).

End Scanning.
End Defs.
Arguments Iterator : clear implicits.
Arguments Method : clear implicits.
End Iterator.

(** ** [pkg/sql.go], the older copy of the package: its [Iterator] has the
    same methods apart from [Collect], which has no [defer it.Close()]. *)
Module Pkg.
Section Defs.
Context {T E : Type}.

(** [func (it *Iterator[T]) Collect() ([]T, error)] of [pkg/sql.go] *)
Definition Collect (zero : T) (noRow : E) (it : Iterator.Iterator T E)
  : option (outcome (slice T * option E) * Iterator.Iterator T E) :=
  Iterator.Collect_loop zero noRow (Iterator.enough it) None it.

End Defs.
End Pkg.

(** ** The functions of the package that run a query

    [sqlx.QueryerContext] is the executor; running a query either opens a
    cursor or fails.  [Arg] is the type of a query argument. *)
Module Gsql.
Section Defs.
Context {T E Ctx Arg : Type}.

Definition QueryerContext : Type :=
  Ctx -> string -> list Arg -> Cursor.t T E + E.

(** [db.QueryxContext(ctx, query, args...)]: as in sqlx, the cursor is nil
    when there is an error. *)
Definition QueryxContext (db : QueryerContext) (ctx : Ctx) (query : string)
    (args : list Arg) : option (Cursor.t T E) * option E :=
  match db ctx query args with
  | inl c => (Some c, None)
  | inr e => (None, Some e)
  end.

(** The loop of sqlx's [scanAll]: each row scanned is appended to the
    destination, the first row that fails to scan ends it. *)
Fixpoint scanAll (rs : list (Cursor.Row T E)) (end_err : option E)
    (dest : slice T) : slice T * option E :=
  match rs with
  | [] => (dest, end_err)
  | Cursor.ScanOk v :: rest => scanAll rest end_err (append dest v)
  | Cursor.ScanFail _ e :: _ => (dest, Some e)
  end.

(** [sqlx.SelectContext(ctx, db, &dest, query, args...)]: the destination
    afterwards and the error. *)
Definition SelectContext (ctx : Ctx) (db : QueryerContext) (dest : slice T)
    (query : string) (args : list Arg) : slice T * option E :=
  match QueryxContext db ctx query args with
  | (Some c, None) => scanAll (Cursor.pending c) (Cursor.fault c) dest
  | (_, Some e) => (dest, Some e)
  | (None, None) => (dest, None)
  end.

(** [func List[T any](ctx, db, query, args...) ([]T, error)]:
    [results = make([]T, 0)], and what is returned is [results] as
    [SelectContext] left it. *)
Definition List (ctx : Ctx) (db : QueryerContext) (query : string)
    (args : list Arg) : slice T * option E :=
  let results : slice T := Some [] in
  SelectContext ctx db results query args.

(** [sqlx.GetContext(ctx, db, &dest, query, args...)]: the first row is
    scanned into the destination and the rest is not looked at; [noRows] is
    [sql.ErrNoRows], the error for a query without a row. *)
Definition GetContext (noRows : E) (ctx : Ctx) (db : QueryerContext)
    (dest : T) (query : string) (args : list Arg) : T * option E :=
  match QueryxContext db ctx query args with
  | (Some c, None) =>
      match Cursor.pending c with
      | Cursor.ScanOk v :: _ => (v, None)
      | Cursor.ScanFail partial e :: _ => (partial, Some e)
      | [] =>
          (dest, Some (match Cursor.fault c with
                       | Some e => e
                       | None => noRows
                       end))
      end
  | (_, Some e) => (dest, Some e)
  | (None, None) => (dest, Some noRows)
  end.

(** [func Get[T any](ctx, db, query, args...) (T, error)]: [var result T],
    and what is returned is [result] as [GetContext] left it. *)
Definition Get (zero : T) (noRows : E) (ctx : Ctx) (db : QueryerContext)
    (query : string) (args : list Arg) : T * option E :=
  GetContext noRows ctx db zero query args.

(** [func LazyGet[T any](db, query, args...) func(ctx) (T, error)].  The
    closure keeps the handle [db]; what the handle gives access to changes
    with time, so the executor is the world the closure runs in. *)
Definition LazyGet (zero : T) (noRows : E) (query : string) (args : list Arg)
  : Cache.Factory T E Ctx QueryerContext :=
  fun ctx db => (Get zero noRows ctx db query args, db).

(** [func LazyList[T any](db, query, args...) func(ctx) ([]T, error)] *)
Definition LazyList (query : string) (args : list Arg)
  : Cache.Factory (slice T) E Ctx QueryerContext :=
  fun ctx db => (List ctx db query args, db).

(** [func CachedGet[T any](db, query, args...) *Cache[T]] *)
Definition CachedGet (zero : T) (noRows : E) (query : string)
    (args : list Arg) : Cache.Cache T E Ctx QueryerContext :=
  Cache.NewCache zero (LazyGet zero noRows query args).

(** [func CachedList[T any](db, query, args...) *Cache[[]T]]: the zero
    value of [[]T] is the nil slice. *)
Definition CachedList (query : string) (args : list Arg)
  : Cache.Cache (slice T) E Ctx QueryerContext :=
  Cache.NewCache None (LazyList query args).

(** [func Iterate[T any](ctx, db, query, args...) *Iterator[T]] *)
Definition Iterate (ctx : Ctx) (db : QueryerContext) (query : string)
    (args : list Arg) : Iterator.Iterator T E :=
  let '(rows, err) := QueryxContext db ctx query args in
  {| Iterator.err := err; Iterator.rows := rows |}.

(** [func Rows[T any](rows *sqlx.Rows) *Iterator[T]] *)
Definition Rows (rows : option (Cursor.t T E)) : Iterator.Iterator T E :=
  {| Iterator.err := None; Iterator.rows := rows |}.

End Defs.
Arguments QueryerContext : clear implicits.
End Gsql.

(** ** [type NamedStatement[T any, Params any] string] *)
Module NamedStatement.
Section Defs.
Context {T E Ctx Arg Params : Type}.

(** [sqlx.Named] binds the named parameters of a statement; [wrap] is
    [fmt.Errorf("prepare SQL: %w", err)]. *)
Variable Named : string -> Params -> (string * list Arg) + E.
Variable wrap : E -> E.

(** [func (st NamedStatement[T, Params]) Iterate(ctx, db, arg) *Iterator[T]] *)
Definition Iterate (st : string) (ctx : Ctx)
    (db : Gsql.QueryerContext T E Ctx Arg) (arg : Params)
  : Iterator.Iterator T E :=
  match Named st arg with
  | inr e => {| Iterator.err := Some (wrap e); Iterator.rows := None |}
  | inl (query, args) => Gsql.Iterate ctx db query args
  end.

(** [func (st NamedStatement[T, Params]) List(ctx, db, arg) ([]T, error)] *)
Definition List (st : string) (ctx : Ctx)
    (db : Gsql.QueryerContext T E Ctx Arg) (arg : Params)
  : slice T * option E :=
  match Named st arg with
  | inr e => (None, Some (wrap e))
  | inl (query, args) => Gsql.List ctx db query args
  end.

(** [func (st NamedStatement[T, Params]) Get(ctx, db, arg) (T, error)];
    [zero] is [var def T]. *)
Definition Get (zero : T) (noRows : E) (st : string) (ctx : Ctx)
    (db : Gsql.QueryerContext T E Ctx Arg) (arg : Params) : T * option E :=
  match Named st arg with
  | inr e => (zero, Some (wrap e))
  | inl (query, args) => Gsql.Get zero noRows ctx db query args
  end.

End Defs.
End NamedStatement.

(** ** [type Statement[T any] string] *)
Module Statement.
Section Defs.
Context {T E Ctx Arg : Type}.

(** [func (st Statement[T]) List(ctx, db, args...) ([]T, error)] *)
Definition List (st : string) (ctx : Ctx)
    (db : Gsql.QueryerContext T E Ctx Arg) (args : list Arg)
  : slice T * option E :=
  Gsql.List ctx db st args.

(** [func (st Statement[T]) Iterate(ctx, db, args...) *Iterator[T]] *)
Definition Iterate (st : string) (ctx : Ctx)
    (db : Gsql.QueryerContext T E Ctx Arg) (args : list Arg)
  : Iterator.Iterator T E :=
  Gsql.Iterate ctx db st args.

(** [func (st Statement[T]) Get(ctx, db, args...) (T, error)] *)
Definition Get (zero : T) (noRows : E) (st : string) (ctx : Ctx)
    (db : Gsql.QueryerContext T E Ctx Arg) (args : list Arg) : T * option E :=
  Gsql.Get zero noRows ctx db st args.

End Defs.
End Statement.

(** ** [type JSON[T any] struct { Data T }]

    [encoding/json] is outside the package: [Marshal] and [Unmarshal] stand
    for [json.Marshal] and [json.Unmarshal] at the type [T], the latter
    taking the value behind its destination pointer and returning it as it
    is afterwards. *)
Module JSON.
Section Defs.
Context {T E Other : Type}.

(** The dynamic type of the value handed to [Scan]: a string, a byte
    slice, or anything else ([Other]: [int64], [float64], [bool],
    [time.Time], and nil for a NULL column). *)
Inductive any : Type :=
| AString (v : string)
| ABytes (v : list Byte.byte)
| AOther (v : Other).

Record JSON : Type := Build { Data : T }.

Variable Marshal : T -> list Byte.byte * option E.
Variable Unmarshal : list Byte.byte -> T -> T * option E.
(** [fmt.Errorf("unsupported field type")] *)
Variable unsupported : E.

(** [func AsJSON[T any](value T) JSON[T]] *)
Definition AsJSON (value : T) : JSON := {| Data := value |}.

(** [func (field JSON[T]) Value() (driver.Value, error)] *)
Definition Value (field : JSON) : any * option E :=
  let '(b, err) := Marshal (Data field) in (ABytes b, err).

(** [func (field *JSON[T]) Scan(value any) error]: the field afterwards and
    the error. *)
Definition Scan (field : JSON) (value : any) : JSON * option E :=
  match value with
  | AString v =>
      let '(d, err) := Unmarshal (list_byte_of_string v) (Data field) in
      ({| Data := d |}, err)
  | ABytes v =>
      let '(d, err) := Unmarshal v (Data field) in
      ({| Data := d |}, err)
  | AOther _ => (field, Some unsupported)
  end.

End Defs.
Arguments any : clear implicits.
Arguments JSON : clear implicits.
End JSON.

(** ** Concrete caches, cursors and iterators *)
Import Cache.

Module Examples.

(** A factory that reads the number kept by the external source. *)
Definition reader : Cache.Factory nat nat unit nat :=
  fun _ w => ((w, None), w).

(** A factory that always fails, with error 7. *)
Definition failing : Cache.Factory nat nat unit nat :=
  fun _ w => ((0, Some 7), w).

(** A cache of [f] filled with 5 while the external source now holds [w]. *)
Definition filled (f : Cache.Factory nat nat unit nat) (w : nat)
  : Cache.State nat nat unit nat :=
  {| Cache.ct := {| Cache.lock := RWMutex.zero; Cache.data := 5;
                    Cache.valid := true; Cache.factory := f |};
     Cache.world := w; Cache.trace := [(tt, (5, None))] |}.

(** The same cache after [Invalidate]: 5 is still in storage. *)
Definition invalidated (f : Cache.Factory nat nat unit nat) (w : nat)
  : Cache.State nat nat unit nat :=
  {| Cache.ct := {| Cache.lock := RWMutex.zero; Cache.data := 5;
                    Cache.valid := false; Cache.factory := f |};
     Cache.world := w; Cache.trace := [(tt, (5, None))] |}.

(** [TestCacheGet] of the repository's tests: [Get], the record changes
    in the database (2022 becomes 2023), [Get], [Invalidate], [Get]. *)
Definition TestCacheGet : Cache.M (T := nat) (E := nat) (Ctx := unit)
                            (World := nat) (list (nat * option nat)) :=
  (r1 <- Cache.Get tt ;;
   Cache.mutate (fun _ => 2023) ;;;
   r2 <- Cache.Get tt ;;
   Cache.Invalidate ;;;
   r3 <- Cache.Get tt ;;
   Cache.ret [r1; r2; r3])%cache.

(** A schedule of two callers of [Get] that race: both take the shared
    lock and find the cache not valid, then caller 0 and after it caller 1
    goes through the exclusive lock. *)
Definition racing : list nat :=
  [0; 1; 0; 1; 0; 1; 0; 1; 0; 0; 0; 0; 1; 1; 1; 1].

(** A cursor of two rows, the first of which fails to scan (error 9), and
    the iterator on it after one [Next]. *)
Definition bad_then_good : Cursor.t nat nat :=
  Cursor.open [Cursor.ScanFail 0 9; Cursor.ScanOk 4] None.

Definition on_bad_row : Iterator.Iterator nat nat :=
  snd (Iterator.Next (Gsql.Rows (Some bad_then_good))).

(** A cursor that fails to scan its third row, as in a table of three
    records the last of which does not fit the Go type. *)
Definition third_row_fails : Cursor.t nat nat :=
  Cursor.open [Cursor.ScanOk 1; Cursor.ScanOk 2; Cursor.ScanFail 0 9] None.

(** An executor: ["none"] matches no row, ["bad"] is rejected (error 3),
    any other query yields three rows. *)
Definition db : Gsql.QueryerContext nat nat unit nat :=
  fun _ query _ =>
    if String.eqb query "none" then inl (Cursor.open [] None)
    else if String.eqb query "bad" then inr 3
    else inl (Cursor.open [Cursor.ScanOk 1; Cursor.ScanOk 2; Cursor.ScanOk 3] None).

(** An iterator with the stored error 3 on a cursor that reports error 8. *)
Definition failed_with_cursor : Iterator.Iterator nat nat :=
  {| Iterator.err := Some 3;
     Iterator.rows :=
       Some {| Cursor.pending := [Cursor.ScanOk 4]; Cursor.current := None;
               Cursor.lasterr := Some 8; Cursor.fault := Some 8;
               Cursor.closes := 0 |} |}.

(** An executor whose every query yields the cursor [third_row_fails]. *)
Definition flaky : Gsql.QueryerContext nat nat unit nat :=
  fun _ _ _ => inl third_row_fails.

(** The executor once a row (7) has been inserted: every query yields
    it. *)
Definition db_after : Gsql.QueryerContext nat nat unit nat :=
  fun _ _ _ => inl (Cursor.open [Cursor.ScanOk 7] None).

(** A binder of named parameters that accepts [true] only (error 4), and
    an error wrapper. *)
Definition Named : string -> bool -> (string * list nat) + nat :=
  fun st arg => if arg then inl (st, []) else inr 4.

Definition wrap : nat -> nat := fun e => 100 + e.

(** A codec for booleans, as [encoding/json] has it. *)
Definition Marshal (v : bool) : list Byte.byte * option nat :=
  (list_byte_of_string (if v then "true" else "false"), None).

Definition Unmarshal (b : list Byte.byte) (dest : bool) : bool * option nat :=
  if String.eqb (string_of_list_byte b) "true" then (true, None)
  else if String.eqb (string_of_list_byte b) "false" then (false, None)
  else (dest, Some 1).

End Examples.

(** * Properties *)

(** ** One caller at a time *)
Section CacheSequential.
Context {T E Ctx World : Type}.
Implicit Types (s : Cache.State T E Ctx World) (ctx : Ctx).

Ltac exec :=
  cbv [Get Get_locked Refresh Invalidate bind ret with_lock
       lock_RLock lock_RUnlock lock_Lock lock_Unlock
       get_valid get_data set_data set_valid call_factory
       RWMutex.RLock RWMutex.RUnlock RWMutex.Lock RWMutex.Unlock
       RWMutex.zero];
  cbn [ct world trace lock data valid factory RWMutex.readers RWMutex.writer
       fst snd].

Ltac open_state s :=
  destruct s as [[l0 d0 v0 f0] w0 tr0];
  cbn [ct world trace lock data valid factory] in *; subst.

Lemma Get_filled ctx s :
  lock (ct s) = RWMutex.zero ->
  valid (ct s) = true ->
  Get ctx s = Some ((data (ct s), None), s).
Proof. intros Hl Hv. open_state s. reflexivity. Qed.

Lemma Invalidate_spec s :
  lock (ct s) = RWMutex.zero ->
  Invalidate s =
    Some (tt, {| ct := {| lock := RWMutex.zero; data := data (ct s);
                          valid := false; factory := factory (ct s) |};
                 world := world s; trace := trace s |}).
Proof. intros Hl. open_state s. reflexivity. Qed.

Lemma Get_empty ctx s :
  lock (ct s) = RWMutex.zero ->
  valid (ct s) = false ->
  Get ctx s =
    let '(r, w) := factory (ct s) ctx (world s) in
    match snd r with
    | Some e =>
        Some ((data (ct s), Some e),
              {| ct := ct s; world := w; trace := trace s ++ [(ctx, r)] |})
    | None =>
        Some ((fst r, None),
              {| ct := {| lock := RWMutex.zero; data := fst r; valid := true;
                          factory := factory (ct s) |};
                 world := w; trace := trace s ++ [(ctx, r)] |})
    end.
Proof.
  intros Hl Hv. open_state s. exec.
  destruct (f0 ctx w0) as [[v [e|]] w]; reflexivity.
Qed.

Lemma Refresh_spec ctx s :
  lock (ct s) = RWMutex.zero ->
  Refresh ctx s =
    let '(r, w) := factory (ct s) ctx (world s) in
    match snd r with
    | Some e =>
        Some (Some e,
              {| ct := ct s; world := w; trace := trace s ++ [(ctx, r)] |})
    | None =>
        Some (None,
              {| ct := {| lock := RWMutex.zero; data := fst r; valid := true;
                          factory := factory (ct s) |};
                 world := w; trace := trace s ++ [(ctx, r)] |})
    end.
Proof.
  intros Hl. open_state s. exec.
  destruct (f0 ctx w0) as [[v [e|]] w]; reflexivity.
Qed.

Lemma Gets_filled reqs s :
  lock (ct s) = RWMutex.zero ->
  valid (ct s) = true ->
  Gets reqs s =
    Some (replicate (length reqs) (data (ct s), None),
          {| ct := ct s;
             world := foldl (fun w req => fst req w) (world s) reqs;
             trace := trace s |}).
Proof.
  revert s. induction reqs as [|[m ctx] reqs IH]; intros s Hl Hv.
  - destruct s; reflexivity.
  - cbn [Gets]. unfold bind at 1, mutate.
    unfold bind at 1. rewrite Get_filled by assumption.
    unfold bind at 1. rewrite IH by assumption. reflexivity.
Qed.

(** C2. A call of [Get] on a cache that is not valid, whose factory fails
    with [e]: the call returns [e]; the cache is as it was, so [valid] is
    still false; what is returned next to the error is the value left in
    storage, never handed out with a nil error. *)
Theorem Get_factory_error ctx s v e w :
  lock (ct s) = RWMutex.zero ->
  valid (ct s) = false ->
  factory (ct s) ctx (world s) = ((v, Some e), w) ->
  Get ctx s =
    Some ((data (ct s), Some e),
          {| ct := ct s; world := w;
             trace := trace s ++ [(ctx, (v, Some e))] |}).
Proof.
  intros Hl Hv Hf. rewrite Get_empty by assumption. rewrite Hf. reflexivity.
Qed.

(** C3. A call of [Refresh] whose factory fails with [e] returns [e] and
    leaves the cache as it was: same stored value, same [valid].  A cache
    that was filled still answers [Get] with its value and no error. *)
Theorem Refresh_factory_error ctx ctx' s v e w :
  lock (ct s) = RWMutex.zero ->
  factory (ct s) ctx (world s) = ((v, Some e), w) ->
  let s' := {| ct := ct s; world := w;
               trace := trace s ++ [(ctx, (v, Some e))] |} in
  Refresh ctx s = Some (Some e, s') /\
  (valid (ct s) = true -> Get ctx' s' = Some ((data (ct s), None), s')).
Proof.
  intros Hl Hf s'. split.
  - rewrite Refresh_spec by assumption. rewrite Hf. reflexivity.
  - intros Hv. apply (Get_filled ctx' s'); assumption.
Qed.

(** C4. A valid cache answers every [Get] with the stored value and does
    not invoke its factory, however many calls there are and however the
    external source changes in between.  After [Invalidate] the next [Get]
    invokes the factory, once, and returns what it produced (when the
    factory fails: its error, next to the old value). *)
Theorem Get_filled_until_Invalidate reqs ctx s :
  lock (ct s) = RWMutex.zero ->
  valid (ct s) = true ->
  (exists s1,
     Gets reqs s = Some (replicate (length reqs) (data (ct s), None), s1) /\
     ct s1 = ct s /\ trace s1 = trace s) /\
  (exists s1 s2 res,
     Invalidate s = Some (tt, s1) /\
     Get ctx s1 = Some (res, s2) /\
     let r := fst (factory (ct s) ctx (world s)) in
     trace s2 = trace s ++ [(ctx, r)] /\
     match snd r with
     | None => res = (fst r, None) /\ data (ct s2) = fst r /\
               valid (ct s2) = true
     | Some e => res = (data (ct s), Some e)
     end).
Proof.
  intros Hl Hv. split.
  - eexists. split; [apply Gets_filled; assumption|]. split; reflexivity.
  - rewrite Invalidate_spec by assumption.
    destruct (factory (ct s) ctx (world s)) as [[v [e|]] w] eqn:Hf;
      eexists _, _, _; (split; [reflexivity|]);
      rewrite Get_empty by reflexivity;
      cbn [ct world trace lock data valid factory]; rewrite Hf;
      cbn [fst snd]; (split; [reflexivity|]); cbn; auto.
Qed.

(** C5. [Refresh] invokes the factory whatever the state of the cache, and
    does not look at [valid]; when the factory succeeds, the value it
    produced is stored and [valid] is set. *)
Theorem Refresh_always_invokes ctx s :
  lock (ct s) = RWMutex.zero ->
  let r := fst (factory (ct s) ctx (world s)) in
  exists s',
    Refresh ctx s = Some (snd r, s') /\
    trace s' = trace s ++ [(ctx, r)] /\
    (snd r = None -> data (ct s') = fst r /\ valid (ct s') = true).
Proof.
  intros Hl r. subst r. rewrite Refresh_spec by assumption.
  destruct (factory (ct s) ctx (world s)) as [[v [e|]] w]; cbn [fst snd];
    eexists; (split; [reflexivity|]); cbn; auto.
  split; [reflexivity|discriminate].
Qed.

(** C6. [Invalidate] changes [valid] and nothing else: the stored value and
    the factory stay, and so do the world and the lock once released. *)
Theorem Invalidate_clears_only_valid s :
  lock (ct s) = RWMutex.zero ->
  exists s',
    Invalidate s = Some (tt, s') /\
    valid (ct s') = false /\
    data (ct s') = data (ct s) /\
    factory (ct s') = factory (ct s) /\
    lock (ct s') = lock (ct s) /\
    world s' = world s /\
    trace s' = trace s.
Proof.
  intros Hl. rewrite Invalidate_spec by assumption. eexists.
  split; [reflexivity|]. cbn. rewrite Hl. repeat split; reflexivity.
Qed.

End CacheSequential.

(** The repository's own test of the cache, on a fresh cache over a
    source that holds 2022: the three calls of [Get] return 2022, 2022 again
    and 2023, and the factory has been invoked twice. *)
Example TestCacheGet_passes :
  Examples.TestCacheGet
    {| ct := NewCache 0 Examples.reader; world := 2022; trace := [] |}
  = Some ([(2022, None); (2022, None); (2023, None)],
          {| ct := {| lock := RWMutex.zero; data := 2023; valid := true;
                      factory := Examples.reader |};
             world := 2023;
             trace := [(tt, (2022, None)); (tt, (2023, None))] |}).
Proof. reflexivity. Qed.

(** The theorems above, on the caches of [Examples]. *)
Lemma Get_factory_error_witness :
  Get tt (Examples.invalidated Examples.failing 9) =
    Some ((5, Some 7),
          {| ct := ct (Examples.invalidated Examples.failing 9); world := 9;
             trace := [(tt, (5, None)); (tt, (0, Some 7))] |}).
Proof.
  apply (Get_factory_error tt (Examples.invalidated Examples.failing 9)
           0 7 9); reflexivity.
Defined.

Lemma Refresh_factory_error_witness :
  let s' := {| ct := ct (Examples.filled Examples.failing 9); world := 9;
               trace := [(tt, (5, None)); (tt, (0, Some 7))] |} in
  Refresh tt (Examples.filled Examples.failing 9) = Some (Some 7, s') /\
  (true = true -> Get tt s' = Some ((5, None), s')).
Proof.
  apply (Refresh_factory_error tt tt (Examples.filled Examples.failing 9)
           0 7 9); reflexivity.
Defined.

Lemma Get_filled_until_Invalidate_witness :
  (exists s1,
     Gets [(fun _ => 6, tt); (fun _ => 8, tt)] (Examples.filled Examples.reader 5)
       = Some ([(5, None); (5, None)], s1) /\
     ct s1 = ct (Examples.filled Examples.reader 5) /\
     trace s1 = [(tt, (5, None))]) /\
  (exists s1 s2 res,
     Invalidate (Examples.filled Examples.reader 8) = Some (tt, s1) /\
     Get tt s1 = Some (res, s2) /\
     trace s2 = [(tt, (5, None)); (tt, (8, None))] /\
     res = (8, None) /\ data (ct s2) = 8 /\ valid (ct s2) = true).
Proof.
  split.
  - apply (Get_filled_until_Invalidate [(fun _ => 6, tt); (fun _ => 8, tt)] tt
             (Examples.filled Examples.reader 5)); reflexivity.
  - apply (Get_filled_until_Invalidate [] tt
             (Examples.filled Examples.reader 8)); reflexivity.
Defined.

Lemma Refresh_always_invokes_witness :
  exists s',
    Refresh tt (Examples.filled Examples.reader 8) = Some (None, s') /\
    trace s' = [(tt, (5, None)); (tt, (8, None))] /\
    (@None nat = None -> data (ct s') = 8 /\ valid (ct s') = true).
Proof.
  apply (Refresh_always_invokes tt (Examples.filled Examples.reader 8));
    reflexivity.
Defined.

Lemma Invalidate_clears_only_valid_witness :
  exists s',
    Invalidate (Examples.filled Examples.reader 8) = Some (tt, s') /\
    valid (ct s') = false /\
    data (ct s') = 5 /\
    factory (ct s') = Examples.reader /\
    lock (ct s') = RWMutex.zero /\
    world s' = 8 /\
    trace s' = [(tt, (5, None))].
Proof.
  apply (Invalidate_clears_only_valid (Examples.filled Examples.reader 8));
    reflexivity.
Defined.

(** ** Concurrent callers of [Get] *)
Section CacheConcurrent.
Context {T E Ctx World : Type}.
Variable f : Factory T E Ctx World.
Variable w0 : World.
Implicit Types (s : State T E Ctx World) (t : Thread T E Ctx)
  (ts : list (Thread T E Ctx)) (cf : Config T E Ctx World).

Lemma count_app {A} (p : A -> bool) (l1 l2 : list A) :
  count p (l1 ++ l2) = count p l1 + count p l2.
Proof. induction l1 as [|x l1 IH]; cbn; [reflexivity|]. rewrite IH. lia. Qed.

Lemma count_zero {A} (p : A -> bool) (l : list A) :
  count p l = 0 -> Forall (fun x => p x = false) l.
Proof.
  induction l as [|x l IH]; cbn; intros H; constructor.
  - destruct (p x); [discriminate|reflexivity].
  - apply IH. destruct (p x); [discriminate|exact H].
Qed.

Lemma count_pos {A} (p : A -> bool) (l : list A) :
  0 < count p l -> exists i x, l !! i = Some x /\ p x = true.
Proof.
  induction l as [|x l IH]; cbn; intros H; [lia|].
  destruct (p x) eqn:Hp.
  - exists 0, x. split; [reflexivity|exact Hp].
  - destruct (IH H) as (i & y & Hi & Hy). exists (S i), y. split; assumption.
Qed.

Lemma step_inv i s ts s' (ts' : list (Thread T E Ctx)) :
  step i (s, ts) = Some (s', ts') ->
  exists ctx pc pc' l1 l2,
    ts = l1 ++ (ctx, pc) :: l2 /\ length l1 = i /\
    step_pc ctx pc s = Some (pc', s') /\
    ts' = l1 ++ (ctx, pc') :: l2.
Proof.
  unfold step. cbn [fst snd].
  destruct (ts !! i) as [[ctx pc]|] eqn:Hi; [|discriminate].
  destruct (step_pc ctx pc s) as [[pc' s1]|] eqn:Hs; [|discriminate].
  intros [= <- <-].
  exists ctx, pc, pc', (take i ts), (drop (S i) ts).
  pose proof (lookup_lt_Some _ _ _ Hi) as Hlt.
  split; [symmetry; apply take_drop_middle; exact Hi|].
  split; [rewrite length_take; lia|].
  split; [exact Hs|].
  apply insert_take_drop. exact Hlt.
Qed.

Lemma thread_ok_same s s' t :
  valid (ct s') = valid (ct s) -> data (ct s') = data (ct s) ->
  trace s' = trace s ->
  thread_ok f w0 s t -> thread_ok f w0 s' t.
Proof.
  intros Hv Hd Ht [Hs H]. split; [exact Hs|].
  destruct t as [c pc]; cbn [snd] in *. destruct pc; rewrite ?Hv, ?Hd, ?Ht; exact H.
Qed.

Lemma thread_ok_frame s s' t :
  in_cs t = false ->
  (valid (ct s) = true -> valid (ct s') = true /\ data (ct s') = data (ct s)) ->
  thread_ok f w0 s t -> thread_ok f w0 s' t.
Proof.
  intros Hcs Hm [Hs H]. split; [exact Hs|].
  destruct t as [c pc]; cbn [snd] in *. destruct pc; cbn in Hcs; try discriminate; cbn in *; auto.
  - intros Hv. apply Hm, H, Hv.
  - intros Hv. destruct (H Hv) as [H1 H2]. destruct (Hm H1) as [H3 H4]. split; congruence.
  - destruct H as [H1 H2]. destruct (Hm H2) as [H3 H4]. split; congruence.
Qed.


Lemma Forall_ok_same s s' ts :
  valid (ct s') = valid (ct s) -> data (ct s') = data (ct s) ->
  trace s' = trace s ->
  Forall (thread_ok f w0 s) ts -> Forall (thread_ok f w0 s') ts.
Proof.
  intros Hv Hd Ht H. eapply Forall_impl; [exact H|].
  intros t. apply thread_ok_same; assumption.
Qed.

Lemma Forall_ok_frame s s' ts :
  count in_cs ts = 0 ->
  (valid (ct s) = true -> valid (ct s') = true /\ data (ct s') = data (ct s)) ->
  Forall (thread_ok f w0 s) ts -> Forall (thread_ok f w0 s') ts.
Proof.
  intros Hc Hm Hok. apply count_zero in Hc.
  induction Hok as [|t ts Ht Hts IH]; constructor.
  - apply Forall_cons in Hc as [Hc _]. eapply thread_ok_frame; eassumption.
  - apply IH. apply Forall_cons in Hc as [_ Hc]. exact Hc.
Qed.

Ltac unfold_step H :=
  cbv [step_pc bind ret with_lock lock_RLock lock_RUnlock lock_Lock
       lock_Unlock get_valid get_data set_data set_valid call_factory
       RWMutex.RLock RWMutex.RUnlock RWMutex.Lock RWMutex.Unlock] in H;
  cbn [ct world trace lock data valid factory RWMutex.readers
       RWMutex.writer fst snd] in H.

Ltac fields :=
  cbn [ct world trace lock data valid factory RWMutex.readers
       RWMutex.writer fst snd in_cs in_rs].

Ltac others_same :=
  eapply Forall_ok_same; [..|eassumption]; reflexivity.

Ltac others_frame :=
  eapply Forall_ok_frame; [lia| |eassumption]; fields; intros; congruence.

Ltac triv :=
  try solve [assumption | lia | congruence | tauto | others_same].

Lemma step_pc_Inv s ctx pc pc' s' l1 l2 :
  Inv f w0 (s, l1 ++ (ctx, pc) :: l2) ->
  step_pc ctx pc s = Some (pc', s') ->
  Inv f w0 (s', l1 ++ (ctx, pc') :: l2).
Proof.
  intros (Hc & Hl & Ht) Hstep.
  unfold Inv, lock_ok in *. cbn [fst snd] in *.
  rewrite !count_app in *. cbn [count] in *.
  rewrite !Forall_app, !Forall_cons in *.
  destruct Ht as (Ht1 & [Hsu Ht] & Ht2).
  destruct Hc as (Hcf & Hc0 & Hcv & Hcw & Hcl & Hcx).
  destruct Hl as (Hlw & Hlr & Hlx).
  destruct s as [[[rd wr] d v fa] w tr].
  cbn [ct world trace lock data valid factory RWMutex.readers RWMutex.writer
       fst snd in_cs in_rs] in *.
  subst fa. unfold cache_ok, thread_ok at 2.
  destruct pc; unfold_step Hstep;
    cbn [in_cs in_rs snd] in Hlw, Hlr, Ht; fields.
  - (* RLock *)
    destruct wr; [discriminate|]. injection Hstep as <- <-. fields.
    repeat split; triv.
  - (* valid := ct.valid *)
    injection Hstep as <- <-. fields.
    repeat split; triv.
  - (* data := ct.data *)
    injection Hstep as <- <-. fields.
    repeat split; triv.
  - (* RUnlock *)
    destruct rd as [|rd]; [discriminate|]. injection Hstep as <- <-.
    assert (wr = false) as -> by (destruct wr; [specialize (Hlx eq_refl)|]; congruence).
    destruct valid0; fields; [destruct (Ht eq_refl) as [-> ->]|];
      repeat split; triv.
  - (* Lock *)
    destruct wr; [discriminate|]. destruct rd; [|discriminate].
    injection Hstep as <- <-. fields.
    repeat split; triv.
    destruct tr; [left; reflexivity|]. destruct v; [right; reflexivity|].
    exfalso. assert (false = true) by (apply Hcx; congruence). discriminate.
  - (* if ct.valid *)
    destruct v; injection Hstep as <- <-; fields;
      repeat split; triv.
    destruct Ht as [Ht|Ht]; [exact Ht|discriminate].
  - (* ct.factory(ctx) *)
    cbn in Ht. subst tr. destruct (Hc0 eq_refl) as [-> ->].
    destruct wr; [|lia].
    unfold succeeds in Hsu.
    destruct (f ctx w0) as [[val [e|]] w1] eqn:Hf; [discriminate Hsu|].
    cbn [fst snd] in Hstep. injection Hstep as <- <-. fields.
    repeat split; triv; try others_frame.
    + constructor; [|constructor]. cbn. rewrite Hf. reflexivity.
    + cbn. lia.
    + eexists. reflexivity.
  - (* ct.data = value *)
    injection Hstep as <- <-. fields.
    destruct Ht as [Hv [c Htr]]. destruct wr; [|lia].
    repeat split; triv; try others_frame.
    all: eexists; exact Htr.
  - (* ct.valid = true *)
    injection Hstep as <- <-. fields.
    destruct Ht as [Hv [c Htr]]. destruct wr; [|lia].
    repeat split; triv; try others_frame.
    all: eexists; exact Htr.
  - (* Unlock *)
    destruct wr; [|discriminate]. injection Hstep as <- <-. fields.
    destruct Ht as [Hr Hv].
    repeat split; triv.
  - discriminate.
Qed.


Lemma step_Inv i cf cf' : Inv f w0 cf -> step i cf = Some cf' -> Inv f w0 cf'.
Proof.
  destruct cf as [s ts], cf' as [s' ts']. intros HI Hs.
  apply step_inv in Hs as (ctx & pc & pc' & l1 & l2 & -> & _ & Hs & ->).
  eapply step_pc_Inv; eassumption.
Qed.

Lemma run_Inv sch : forall cf cf',
  Inv f w0 cf -> run sch cf = Some cf' -> Inv f w0 cf'.
Proof.
  induction sch as [|i sch IH]; intros cf cf' HI Hr; cbn in Hr.
  - congruence.
  - destruct (step i cf) as [cf1|] eqn:Hs; [|discriminate].
    eapply IH; [|exact Hr]. eapply step_Inv; eassumption.
Qed.

Lemma count_fresh (p : Thread T E Ctx -> bool) (ctxs : list Ctx) :
  (forall c, p (c, AtRLock) = false) ->
  count p (map (fun c => (c, AtRLock)) ctxs) = 0.
Proof.
  intros Hp. induction ctxs as [|c ctxs IH]; cbn; [reflexivity|].
  rewrite Hp, IH. reflexivity.
Qed.

Lemma fresh_Inv zero ctxs :
  Forall (succeeds f w0) ctxs -> Inv f w0 (fresh zero f w0 ctxs).
Proof.
  intros Hs. unfold Inv, fresh, cache_ok, lock_ok. cbn.
  rewrite !count_fresh by reflexivity.
  repeat split; try congruence; try lia; try constructor.
  induction Hs; cbn; constructor; [split; [assumption|exact I]|assumption].
Qed.

(** Every step takes the caller that moves closer to its return. *)
Lemma step_pc_rank ctx pc pc' s s' :
  step_pc ctx pc s = Some (pc', s') -> rank (ctx, pc') < rank (ctx, pc).
Proof.
  intros Hstep. destruct s as [[[rd wr] d v fa] w tr].
  destruct pc; unfold_step Hstep;
    repeat (first
      [ discriminate Hstep
      | match type of Hstep with
        | context [if ?b then _ else _] => is_var b; destruct b
        | context [match ?n with O => _ | S _ => _ end] => is_var n; destruct n
        | context [fa ?c ?w] => destruct (fa c w) as [[? [?|]] ?]
        end ]; cbn [fst snd] in Hstep);
    injection Hstep as <- <-; cbn; lia.
Qed.

Lemma total_rank_middle (l1 l2 : list (Thread T E Ctx)) t :
  total_rank (l1 ++ t :: l2) = total_rank l1 + rank t + total_rank l2.
Proof.
  unfold total_rank. rewrite sum_list_with_app. cbn. lia.
Qed.

Lemma step_rank i cf cf' :
  step i cf = Some cf' -> total_rank (snd cf') < total_rank (snd cf).
Proof.
  destruct cf as [s ts], cf' as [s' ts']. intros Hs.
  apply step_inv in Hs as (ctx & pc & pc' & l1 & l2 & -> & _ & Hs & ->).
  cbn [snd]. rewrite !total_rank_middle.
  apply step_pc_rank in Hs. lia.
Qed.

Lemma run_rank sch : forall cf cf',
  run sch cf = Some cf' ->
  length sch + total_rank (snd cf') <= total_rank (snd cf).
Proof.
  induction sch as [|i sch IH]; intros cf cf' Hr; cbn in Hr.
  - injection Hr as <-. cbn. lia.
  - destruct (step i cf) as [cf1|] eqn:Hs; [|discriminate].
    apply IH in Hr. apply step_rank in Hs. cbn. lia.
Qed.

Lemma total_rank_fresh zero ctxs :
  total_rank (snd (fresh zero f w0 ctxs)) = 10 * length ctxs.
Proof.
  unfold fresh. cbn [snd]. induction ctxs as [|c ctxs IH]; [reflexivity|].
  unfold total_rank in *. cbn [map sum_list_with rank snd length]. rewrite IH. lia.
Qed.

(** While a caller has not returned, some caller can move. *)
Lemma Inv_progress s ts :
  Inv f w0 (s, ts) ->
  forallb returned ts = false ->
  exists i cf', step i (s, ts) = Some cf'.
Proof.
  intros (_ & (Hlw & Hlr & Hlx) & _) Hnr. cbn [fst snd] in *.
  assert (Hgo : forall i ctx pc,
             ts !! i = Some (ctx, pc) -> is_Some (step_pc ctx pc s) ->
             exists i cf', step i (s, ts) = Some cf').
  { intros i ctx pc Hi [[pc' s'] Hs]. exists i. unfold step. cbn [fst snd].
    rewrite Hi, Hs. eauto. }
  destruct s as [[[rd wr] d v fa] w tr].
  cbn [ct lock RWMutex.readers RWMutex.writer] in *.
  destruct wr.
  - (* the holder of the exclusive lock can move *)
    destruct (count_pos in_cs ts) as (i & [ctx pc] & Hi & Hp); [lia|].
    apply (Hgo i ctx pc Hi).
    destruct pc; try discriminate Hp;
      cbv [step_pc bind ret with_lock lock_Unlock get_valid get_data set_data
           set_valid call_factory RWMutex.Unlock];
      cbn [ct world trace lock data valid factory RWMutex.readers
           RWMutex.writer fst snd];
      try (destruct v); try (destruct (fa ctx w) as [[? [?|]] ?]); cbn; eauto.
  - destruct rd as [|rd].
    + (* the lock is free: whoever has not returned can take it *)
      assert (Hex : exists i ctx pc, ts !! i = Some (ctx, pc) /\
                      returned (ctx, pc) = false /\
                      in_cs (ctx, pc) = false /\ in_rs (ctx, pc) = false).
      { apply count_zero in Hlw, Hlr.
        clear Hgo Hlx. induction ts as [|[ctx pc] ts IH]; [discriminate|].
        apply Forall_cons in Hlw as [Hc1 Hc2], Hlr as [Hr1 Hr2].
        cbn [forallb] in Hnr.
        destruct (returned (ctx, pc)) eqn:Hret.
        - destruct (IH Hc2 Hr2 Hnr) as (i & ctx' & pc' & Hi & H).
          exists (S i), ctx', pc'. split; [exact Hi|exact H].
        - exists 0, ctx, pc. repeat split; assumption. }
      destruct Hex as (i & ctx & pc & Hi & Hret & Hcs & Hrs).
      apply (Hgo i ctx pc Hi).
      destruct pc; try discriminate; cbn; eauto.
    + (* a holder of the shared lock can move *)
      destruct (count_pos in_rs ts) as (i & [ctx pc] & Hi & Hp); [lia|].
      apply (Hgo i ctx pc Hi).
      destruct pc; try discriminate Hp; cbn; eauto.
Qed.

(** What a caller that has returned holds. *)
Lemma Inv_returned s ts ctx r :
  Inv f w0 (s, ts) ->
  (ctx, Returned r) ∈ ts ->
  exists c v,
    trace s = [(c, (v, None))] /\ fst (f c w0) = (v, None) /\ r = (v, None).
Proof.
  intros ((_ & _ & Hcv & Hcw & _) & _ & Hts) Hin. cbn [fst snd] in *.
  rewrite Forall_forall in Hts. destruct (Hts _ Hin) as [_ [-> Hv]].
  destruct (Hcv Hv) as [c Htr]. exists c, (data (ct s)).
  split; [exact Htr|]. split; [|reflexivity].
  rewrite Htr in Hcw. apply Forall_cons in Hcw as [Hc _]. cbn in Hc. congruence.
Qed.


Lemma run_length sch : forall cf cf',
  run sch cf = Some cf' -> length (snd cf') = length (snd cf).
Proof.
  induction sch as [|i sch IH]; intros cf cf' Hr; cbn in Hr.
  - injection Hr as <-. reflexivity.
  - destruct (step i cf) as [cf1|] eqn:Hs; [|discriminate].
    apply IH in Hr. rewrite Hr.
    destruct cf as [s ts], cf1 as [s1 ts1].
    apply step_inv in Hs as (ctx & pc & pc' & l1 & l2 & -> & _ & _ & ->).
    cbn [snd]. rewrite !length_app. reflexivity.
Qed.

(** From any state the callers can be scheduled until all have returned. *)
Lemma Inv_completes n : forall cf,
  Inv f w0 cf -> total_rank (snd cf) <= n ->
  exists sch cf', run sch cf = Some cf' /\ forallb returned (snd cf') = true.
Proof.
  induction n as [|n IH]; intros [s ts] HI Hn;
    (destruct (forallb returned ts) eqn:Hret;
     [exists [], (s, ts); split; [reflexivity|exact Hret]|]);
    destruct (Inv_progress s ts HI Hret) as (i & cf1 & Hs);
    pose proof (step_rank _ _ _ Hs) as Hlt; cbn [snd] in *; [lia|].
  destruct (IH cf1) as (sch & cf' & Hr & Hall);
    [eapply step_Inv; eassumption|lia|].
  exists (i :: sch), cf'. cbn. rewrite Hs. split; assumption.
Qed.

(** C1. Callers of [Get] sharing a fresh cache whose factory succeeds when
    it is first invoked.  However they are scheduled: the factory is never
    invoked twice; a caller that has returned holds the value the one
    invocation produced, and no error; while a caller has not returned
    some caller can move, and no schedule is longer than ten steps per
    caller, so that all callers return; and once all have returned the
    factory has been invoked exactly once and all hold the same value. *)
Theorem Get_concurrent_single_fill zero ctxs :
  ctxs <> [] ->
  Forall (succeeds f w0) ctxs ->
  single_fill zero f w0 ctxs /\
  (exists sch s ts,
     run sch (fresh zero f w0 ctxs) = Some (s, ts) /\
     forallb returned ts = true) /\
  forall sch s ts,
    run sch (fresh zero f w0 ctxs) = Some (s, ts) ->
    length sch <= 10 * length ctxs /\
    calls s <= 1 /\
    (forallb returned ts = false -> exists i cf', step i (s, ts) = Some cf') /\
    (forall ctx r,
       (ctx, Returned r) ∈ ts ->
       exists c v,
         trace s = [(c, (v, None))] /\ fst (f c w0) = (v, None) /\
         r = (v, None)).
Proof.
  intros Hne Hsucc.
  pose proof (fresh_Inv zero ctxs Hsucc) as HI0.
  split; [|split].
  - intros sch s ts Hr Hall.
    pose proof (run_Inv _ _ _ HI0 Hr) as HI.
    pose proof (run_length _ _ _ Hr) as Hlen.
    cbn [snd fresh] in Hlen. rewrite length_map in Hlen.
    destruct ts as [|[ctx0 pc0] ts]; [destruct ctxs; [congruence|discriminate]|].
    assert (H0 : exists r0, pc0 = Returned r0).
    { cbn in Hall. destruct pc0; try discriminate Hall. eauto. }
    destruct H0 as [r0 ->].
    destruct (Inv_returned s _ ctx0 r0 HI) as (c & v & Htr & _ & _);
      [left|].
    split; [unfold calls; rewrite Htr; reflexivity|].
    exists v. intros [ctx pc] Hin.
    assert (Hp : exists r, pc = Returned r).
    { rewrite forallb_forall in Hall. apply list_elem_of_In, Hall in Hin.
      destruct pc; try discriminate Hin. eauto. }
    destruct Hp as [r ->].
    destruct (Inv_returned s _ ctx r HI Hin) as (c' & v' & Htr' & _ & ->).
    cbn. congruence.
  - destruct (Inv_completes _ _ HI0 (le_n _)) as (sch & [s ts] & Hr & Hall).
    eauto.
  - intros sch s ts Hr.
    pose proof (run_Inv _ _ _ HI0 Hr) as HI.
    split; [|split; [|split]].
    + apply run_rank in Hr. rewrite total_rank_fresh in Hr. lia.
    + destruct HI as ((_ & _ & _ & _ & Hl & _) & _). exact Hl.
    + apply Inv_progress. exact HI.
    + intros ctx r. apply Inv_returned. exact HI.
Qed.

End CacheConcurrent.

(** One caller alone on the statements of [Get] does what the method
    [Get] does. *)
Lemma solo_run_is_Get {T E Ctx World} (ctx : Ctx) (s : State T E Ctx World) :
  lock (ct s) = RWMutex.zero ->
  exists r s' n,
    Get ctx s = Some (r, s') /\
    run (replicate n 0) (s, [(ctx, AtRLock)]) = Some (s', [(ctx, Returned r)]).
Proof.
  intros Hl. destruct s as [[l d v fa] w tr]. cbn in Hl. subst l.
  destruct v.
  - eexists _, _, 4. split; reflexivity.
  - destruct (fa ctx w) as [[val [e|]] w1] eqn:Hf.
    + eexists _, _, 8. split.
      * rewrite Get_empty by reflexivity. cbn. rewrite Hf. reflexivity.
      * cbn. unfold step. cbn. unfold call_factory, bind. cbn. rewrite Hf. reflexivity.
    + eexists _, _, 10. split.
      * rewrite Get_empty by reflexivity. cbn. rewrite Hf. reflexivity.
      * cbn. unfold step. cbn. unfold call_factory, bind. cbn. rewrite Hf. reflexivity.
Qed.

(** C1 on three callers of a cache whose factory reads the source. *)
Lemma Get_concurrent_single_fill_witness :
  single_fill 0 Examples.reader 5 [tt; tt; tt] /\
  (exists sch s ts,
     run sch (fresh 0 Examples.reader 5 [tt; tt; tt]) = Some (s, ts) /\
     forallb returned ts = true) /\
  forall sch s ts,
    run sch (fresh 0 Examples.reader 5 [tt; tt; tt]) = Some (s, ts) ->
    length sch <= 10 * 3 /\
    calls s <= 1 /\
    (forallb returned ts = false -> exists i cf', step i (s, ts) = Some cf') /\
    (forall ctx r,
       (ctx, Returned r) ∈ ts ->
       exists c v,
         trace s = [(c, (v, None))] /\ fst (Examples.reader c 5) = (v, None) /\
         r = (v, None)).
Proof.
  apply (Get_concurrent_single_fill Examples.reader 5 0 [tt; tt; tt]).
  - discriminate.
  - repeat constructor.
Defined.

(** C1 without the proviso fails: when the factory fails, each of two
    racing callers invokes it in its turn. *)
Lemma failing_factory_invoked_twice :
  ~ single_fill 0 Examples.failing 0 [tt; tt].
Proof.
  intros H.
  specialize (H Examples.racing).
  vm_compute in H.
  destruct (H _ _ eq_refl eq_refl) as [Hcalls _]. discriminate Hcalls.
Qed.

(** ** The iterator *)
Section IteratorFacts.
Context {T E : Type}.
Variable zero : T.
Variable noRow : E.
Implicit Types (it : Iterator.Iterator T E) (c : Cursor.t T E).

Lemma Cursor_Next_closes c : Cursor.closes (snd (Cursor.Next c)) = Cursor.closes c.
Proof.
  unfold Cursor.Next. destruct (Cursor.closes c) eqn:Hc; [|exact Hc].
  destruct (Cursor.pending c); reflexivity.
Qed.

Lemma Cursor_Next_pending c :
  fst (Cursor.Next c) = true ->
  S (length (Cursor.pending (snd (Cursor.Next c)))) = length (Cursor.pending c).
Proof.
  unfold Cursor.Next. destruct (Cursor.closes c); [|discriminate].
  destruct (Cursor.pending c); [discriminate|reflexivity].
Qed.

(** With a cursor and enough fuel the loop of [Collect] returns; it keeps
    the cursor and does not close it. *)
Lemma Collect_loop_returns fuel : forall result it c,
  Iterator.rows it = Some c ->
  length (Cursor.pending c) < fuel ->
  exists res c',
    Iterator.Collect_loop zero noRow fuel result it
      = Some (Returns res,
              {| Iterator.err := Iterator.err it; Iterator.rows := Some c' |}) /\
    Cursor.closes c' = Cursor.closes c.
Proof.
  induction fuel as [|fuel IH]; intros result it c Hr Hlt; [lia|].
  destruct it as [er ro]. cbn in Hr. subst ro.
  cbn [Iterator.Collect_loop]. unfold Iterator.Next. cbn [Iterator.err Iterator.rows].
  destruct er as [e0|].
  - cbn. eauto.
  - pose proof (Cursor_Next_closes c) as Hcl.
    pose proof (Cursor_Next_pending c) as Hpe.
    destruct (Cursor.Next c) as [[|] c1]; cbn [fst snd] in *.
    + unfold Iterator.Get. cbn [Iterator.err Iterator.rows].
      destruct (Cursor.Err c1) as [e1|]; [eauto|].
      destruct (Cursor.StructScan noRow c1 zero) as [r [e2|]]; [eauto|].
      destruct (IH (append result r)
                  {| Iterator.err := None; Iterator.rows := Some c1 |} c1 eq_refl)
        as (res & c' & Heq & Hc'); [specialize (Hpe eq_refl); lia|].
      exists res, c'. split; [exact Heq|congruence].
    + cbn. eauto.
Qed.

(** [Collect] of [sql.go] returns for every iterator that has a cursor and
    calls [Close] on it exactly once, whichever [return] is taken. *)
Lemma Collect_closes_once it c :
  Iterator.rows it = Some c ->
  exists res c',
    Iterator.Collect zero noRow it
      = Some (Returns res,
              {| Iterator.err := Iterator.err it; Iterator.rows := Some c' |}) /\
    Cursor.closes c' = S (Cursor.closes c).
Proof.
  intros Hr. unfold Iterator.Collect.
  destruct (Collect_loop_returns (Iterator.enough it) None it c Hr)
    as (res & c1 & Heq & Hc1).
  { unfold Iterator.enough. rewrite Hr. lia. }
  rewrite Heq. cbn. exists res. eexists. split; [reflexivity|].
  cbn. congruence.
Qed.

(** [Collect] of [pkg/sql.go] returns as well, and never calls [Close]. *)
Lemma Pkg_Collect_never_closes it c :
  Iterator.rows it = Some c ->
  exists res c',
    Pkg.Collect zero noRow it
      = Some (Returns res,
              {| Iterator.err := Iterator.err it; Iterator.rows := Some c' |}) /\
    Cursor.closes c' = Cursor.closes c.
Proof.
  intros Hr. unfold Pkg.Collect.
  apply (Collect_loop_returns _ _ it c Hr).
  unfold Iterator.enough. rewrite Hr. lia.
Qed.

(** Without a cursor [Collect] of [sql.go] panics, with or without a
    recorded error: the deferred [Close] dereferences the nil pointer. *)
Lemma Collect_nil_rows_panics it :
  Iterator.rows it = None ->
  Iterator.Collect zero noRow it = Some (Panics, it).
Proof.
  destruct it as [[e|] ro]; cbn; intros ->; reflexivity.
Qed.

(** [Collect] returns or panics: the fuel it gives its loop is enough. *)
Lemma Collect_total it : is_Some (Iterator.Collect zero noRow it).
Proof.
  destruct (Iterator.rows it) as [c|] eqn:Hr.
  - destruct (Collect_closes_once it c Hr) as (res & c' & Heq & _).
    rewrite Heq. eauto.
  - rewrite Collect_nil_rows_panics by assumption. eauto.
Qed.

(** The loop on a cursor whose rows scan until one fails with [e]: the
    values collected so far are dropped, the result is the nil slice and
    [e], and the cursor stands on the failing row. *)
Lemma Collect_loop_scan_error vs : forall fuel result cur partial e rest end_err,
  length vs < fuel ->
  Iterator.Collect_loop zero noRow fuel result
    {| Iterator.err := None;
       Iterator.rows :=
         Some {| Cursor.pending :=
                   map Cursor.ScanOk vs ++ Cursor.ScanFail partial e :: rest;
                 Cursor.current := cur; Cursor.lasterr := None;
                 Cursor.fault := end_err; Cursor.closes := 0 |} |}
  = Some (Returns (None, Some e),
          {| Iterator.err := None;
             Iterator.rows :=
               Some {| Cursor.pending := rest;
                       Cursor.current := Some (Cursor.ScanFail partial e);
                       Cursor.lasterr := None;
                       Cursor.fault := end_err; Cursor.closes := 0 |} |}).
Proof.
  induction vs as [|v vs IH]; intros fuel result cur partial e rest end_err Hlt;
    (destruct fuel as [|fuel]; [cbn in Hlt; lia|]).
  - reflexivity.
  - cbn. cbn in IH. apply IH. cbn in Hlt. lia.
Qed.

Section Queries.
Context {Ctx Arg : Type}.
Implicit Types (db : Gsql.QueryerContext T E Ctx Arg).

(** C7. A query that succeeds and matches no row: [List] returns an empty
    slice that is not nil and no error, while [Collect] returns the nil
    slice and no error. *)
Theorem Collect_zero_rows_nil ctx db query args :
  db ctx query args = inl (Cursor.open [] None) ->
  Gsql.List ctx db query args = (Some [], None) /\
  exists it',
    Iterator.Collect zero noRow (Gsql.Iterate ctx db query args)
      = Some (Returns (None, None), it').
Proof.
  intros Hdb.
  unfold Gsql.List, Gsql.SelectContext, Gsql.Iterate, Gsql.QueryxContext.
  rewrite Hdb. split; [reflexivity|]. eexists. reflexivity.
Qed.

(** C10. An iterator made from a query that could not be started, or from
    a statement that could not be prepared, has no cursor.  Without a
    cursor [Close] panics and so does [Collect], whose deferred [Close]
    runs on every exit; with a cursor both return. *)
Theorem Close_needs_cursor :
  (forall ctx db query args e,
     db ctx query args = inr e ->
     Iterator.rows (Gsql.Iterate ctx db query args) = None /\
     Iterator.err (Gsql.Iterate ctx db query args) = Some e) /\
  (forall (Params : Type) Named wrap st ctx db (arg : Params) e,
     Named st arg = inr e ->
     NamedStatement.Iterate Named wrap st ctx db arg
       = {| Iterator.err := Some (wrap e); Iterator.rows := None |}) /\
  (forall it,
     Iterator.rows it = None ->
     Iterator.Close it = (Panics, it) /\
     Iterator.Collect zero noRow it = Some (Panics, it)) /\
  (forall it c,
     Iterator.rows it = Some c ->
     (exists e it', Iterator.Close it = (Returns e, it')) /\
     (exists res it', Iterator.Collect zero noRow it = Some (Returns res, it'))).
Proof.
  split; [|split; [|split]].
  - intros ctx db query args e Hdb.
    unfold Gsql.Iterate, Gsql.QueryxContext. rewrite Hdb. split; reflexivity.
  - intros Params Named wrap st ctx db arg e Hn.
    unfold NamedStatement.Iterate. rewrite Hn. reflexivity.
  - intros it Hr. split.
    + unfold Iterator.Close. rewrite Hr. reflexivity.
    + apply Collect_nil_rows_panics. exact Hr.
  - intros it c Hr. split.
    + unfold Iterator.Close. rewrite Hr. cbn. eauto.
    + destruct (Collect_closes_once it c Hr) as (res & c' & Heq & _). eauto.
Qed.

End Queries.

(** C8. A cursor whose rows scan until one fails with [e]: both versions
    of [Collect] stop there and return the nil slice and [e]; the one of
    [sql.go] has then closed the cursor once, the one of [pkg/sql.go] has
    not closed it. *)
Theorem Pkg_Collect_scan_error_leaks vs partial e rest end_err :
  let c := Cursor.open
             (map Cursor.ScanOk vs ++ Cursor.ScanFail partial e :: rest)
             end_err in
  (exists c',
     Iterator.Collect zero noRow (Gsql.Rows (Some c))
       = Some (Returns (None, Some e),
               {| Iterator.err := None; Iterator.rows := Some c' |}) /\
     Cursor.closes c' = 1) /\
  (exists c',
     Pkg.Collect zero noRow (Gsql.Rows (Some c))
       = Some (Returns (None, Some e),
               {| Iterator.err := None; Iterator.rows := Some c' |}) /\
     Cursor.closes c' = 0).
Proof.
  intros c.
  assert (Hfuel : length vs < Iterator.enough (Gsql.Rows (Some c))).
  { cbn. rewrite length_app, length_map. lia. }
  pose proof (Collect_loop_scan_error vs _ None None partial e rest end_err Hfuel)
    as Hloop.
  split.
  - unfold Iterator.Collect. unfold Gsql.Rows, c, Cursor.open in *.
    rewrite Hloop. cbn. eexists. split; reflexivity.
  - unfold Pkg.Collect. unfold Gsql.Rows, c, Cursor.open in *.
    rewrite Hloop. eexists. split; reflexivity.
Qed.

(** C9. An iterator made with an error stored in it: [Next] answers
    [false] and leaves the iterator and its cursor alone, whether there is
    a cursor or not, and [Err] returns the stored error whatever the cursor
    reports. *)
Theorem Next_Err_stored_error it e :
  Iterator.err it = Some e ->
  Iterator.Next it = (Returns false, it) /\
  Iterator.Err it = (Returns (Some e), it).
Proof.
  intros He. unfold Iterator.Next, Iterator.Err. rewrite He. split; reflexivity.
Qed.

End IteratorFacts.

(** The two versions of [Collect] on a cursor whose third row fails to
    scan: the same result, one [Close] against none. *)
Example Collect_third_row_fails :
  Iterator.Collect 0 1 (Gsql.Rows (Some Examples.third_row_fails))
  = Some (Returns (None, Some 9),
          {| Iterator.err := None;
             Iterator.rows :=
               Some {| Cursor.pending := [];
                       Cursor.current := Some (Cursor.ScanFail 0 9);
                       Cursor.lasterr := None; Cursor.fault := None;
                       Cursor.closes := 1 |} |}).
Proof. reflexivity. Qed.

Example Pkg_Collect_third_row_fails :
  Pkg.Collect 0 1 (Gsql.Rows (Some Examples.third_row_fails))
  = Some (Returns (None, Some 9),
          {| Iterator.err := None;
             Iterator.rows :=
               Some {| Cursor.pending := [];
                       Cursor.current := Some (Cursor.ScanFail 0 9);
                       Cursor.lasterr := None; Cursor.fault := None;
                       Cursor.closes := 0 |} |}).
Proof. reflexivity. Qed.

(** [Collect] and [List] on a query that yields three rows agree. *)
Example Collect_List_three_rows :
  fst <$> Iterator.Collect 0 1 (Gsql.Iterate tt Examples.db "all"%string [])
    = Some (Returns (Some [1; 2; 3], None)) /\
  Gsql.List tt Examples.db "all"%string [] = (Some [1; 2; 3], None).
Proof. split; reflexivity. Qed.

(** After the scan error of the first row, [Get] has left the iterator as
    it was and [Next] moves on to the second row. *)
Example Next_on_bad_row :
  Iterator.Get 0 1 Examples.on_bad_row
    = (Returns (0, Some 9), Examples.on_bad_row) /\
  fst (Iterator.Next Examples.on_bad_row) = Returns true.
Proof. split; reflexivity. Qed.

(** The theorems above, on the cursors of [Examples]. *)
Lemma Collect_zero_rows_nil_witness :
  Gsql.List tt Examples.db "none"%string [] = (Some [], None) /\
  exists it',
    Iterator.Collect 0 1 (Gsql.Iterate tt Examples.db "none"%string [])
      = Some (Returns (None, None), it').
Proof.
  apply (Collect_zero_rows_nil 0 1 tt Examples.db "none"%string []). reflexivity.
Defined.

Lemma Next_Err_stored_error_witness :
  Iterator.Next Examples.failed_with_cursor
    = (Returns false, Examples.failed_with_cursor) /\
  Iterator.Err Examples.failed_with_cursor
    = (Returns (Some 3), Examples.failed_with_cursor).
Proof.
  apply (Next_Err_stored_error Examples.failed_with_cursor 3). reflexivity.
Defined.

(** C9, as the specification has it, fails: the [Get] that reported the
    scan error of the first row left no trace of it in the iterator, and
    the next [Next] moves the cursor to the second row and answers
    [true]. *)
Lemma Next_after_scan_error_continues :
  ~ Iterator.stops_when_recorded (T := nat) (E := nat) 0 1.
Proof.
  intros H.
  assert (Hrec : Iterator.recorded 0 1 Examples.on_bad_row).
  { right. exists Examples.on_bad_row, 0, 9. reflexivity. }
  specialize (H _ Hrec). vm_compute in H. discriminate H.
Qed.

Lemma Close_needs_cursor_witness :
  (Iterator.rows (Gsql.Iterate tt Examples.db "bad"%string []) = None /\
   Iterator.err (Gsql.Iterate tt Examples.db "bad"%string []) = Some 3) /\
  (Iterator.Close (Gsql.Iterate tt Examples.db "bad"%string [])
     = (Panics, Gsql.Iterate tt Examples.db "bad"%string []) /\
   Iterator.Collect 0 1 (Gsql.Iterate tt Examples.db "bad"%string [])
     = Some (Panics, Gsql.Iterate tt Examples.db "bad"%string [])) /\
  ((exists e it',
      Iterator.Close (Gsql.Iterate tt Examples.db "all"%string []) = (Returns e, it')) /\
   (exists res it',
      Iterator.Collect 0 1 (Gsql.Iterate tt Examples.db "all"%string [])
        = Some (Returns res, it'))).
Proof.
  pose proof (Close_needs_cursor (T := nat) (E := nat) 0 1
                (Ctx := unit) (Arg := nat)) as (H1 & _ & H3 & H4).
  split; [|split].
  - apply (H1 tt Examples.db "bad"%string [] 3). reflexivity.
  - apply (H3 (Gsql.Iterate tt Examples.db "bad"%string [])). reflexivity.
  - apply (H4 (Gsql.Iterate tt Examples.db "all"%string [])
              (Cursor.open [Cursor.ScanOk 1; Cursor.ScanOk 2; Cursor.ScanOk 3] None)).
    reflexivity.
Defined.

(** * Further properties *)

(** ** More on the cache, one caller at a time *)
Section CacheUse.
Context {T E Ctx World : Type}.
Implicit Types (s : State T E Ctx World) (ctx : Ctx)
  (reqs : list ((World -> World) * Ctx)).

(** X1. A [Get] that finds the cache empty and whose factory succeeds
    fills it: it returns the value produced, and every later [Get] returns
    that value without another invocation, whatever becomes of the
    source. *)
Theorem Get_fills_then_hits ctx reqs s v w :
  lock (ct s) = RWMutex.zero ->
  valid (ct s) = false ->
  factory (ct s) ctx (world s) = ((v, None), w) ->
  exists s1 s2,
    Get ctx s = Some ((v, None), s1) /\
    Gets reqs s1 = Some (replicate (length reqs) (v, None), s2) /\
    data (ct s2) = v /\ valid (ct s2) = true /\
    trace s2 = trace s ++ [(ctx, (v, None))].
Proof.
  intros Hl Hv Hf. rewrite Get_empty by assumption. rewrite Hf. cbn [fst snd].
  eexists _, _. split; [reflexivity|].
  rewrite Gets_filled by reflexivity. cbn. auto.
Qed.

(** X2. A [Refresh] whose factory succeeds replaces what the cache held,
    valid or not: every later [Get] returns the new value without another
    invocation. *)
Theorem Refresh_then_Gets ctx reqs s v w :
  lock (ct s) = RWMutex.zero ->
  factory (ct s) ctx (world s) = ((v, None), w) ->
  exists s1 s2,
    Refresh ctx s = Some (None, s1) /\
    Gets reqs s1 = Some (replicate (length reqs) (v, None), s2) /\
    data (ct s2) = v /\ valid (ct s2) = true /\
    trace s2 = trace s ++ [(ctx, (v, None))].
Proof.
  intros Hl Hf. rewrite Refresh_spec by assumption. rewrite Hf. cbn [fst snd].
  eexists _, _. split; [reflexivity|].
  rewrite Gets_filled by reflexivity. cbn. auto.
Qed.

(** X3. Errors are not cached: while the factory fails, every [Get]
    invokes it again and returns an error next to the value left in
    storage, and the cache struct stays as it was. *)
Theorem Gets_errors_not_cached reqs : forall s,
  lock (ct s) = RWMutex.zero ->
  valid (ct s) = false ->
  (forall ctx w, snd (fst (factory (ct s) ctx w)) <> None) ->
  exists rs s',
    Gets reqs s = Some (rs, s') /\
    ct s' = ct s /\
    calls s' = calls s + length reqs /\
    length rs = length reqs /\
    Forall (fun r => fst r = data (ct s) /\ snd r <> None) rs.
Proof.
  induction reqs as [|[m ctx] reqs IH]; intros s Hl Hv Hfail.
  - exists [], s. cbn. repeat split; auto.
  - cbn [Gets]. unfold bind at 1, mutate. unfold bind at 1.
    rewrite Get_empty by assumption. cbn [ct world trace].
    pose proof (Hfail ctx (m (world s))) as Hf.
    destruct (factory (ct s) ctx (m (world s))) as [[v [e|]] w];
      cbn [fst snd] in *; [|congruence].
    unfold bind at 1.
    destruct (IH {| ct := ct s; world := w;
                    trace := trace s ++ [(ctx, (v, Some e))] |})
      as (rs & s' & Hg & Hct & Hcalls & Hlen & Hall); try assumption.
    rewrite Hg. eexists _, _. split; [reflexivity|].
    unfold calls in *. cbn [ct trace] in *. rewrite length_app in Hcalls.
    cbn in *. repeat split; try assumption; try lia.
    constructor; [split; [reflexivity|discriminate]|assumption].
Qed.

Lemma last_success_app (tr : list (Ctx * (T * option E))) c v e :
  last_success (tr ++ [(c, (v, e))]) =
    match e with None => Some v | Some _ => last_success tr end.
Proof.
  induction tr as [|[c' [v' e']] tr IH]; cbn.
  - destruct e; reflexivity.
  - rewrite IH. destruct e; [|reflexivity].
    reflexivity.
Qed.

Lemma call_settled f c s :
  settled f s -> exists s', call c s = Some (tt, s') /\ settled f s'.
Proof.
  intros (Hl & Hf & Hv). destruct c as [ctx|ctx| |m]; cbn [call].
  - unfold bind. destruct (valid (ct s)) eqn:Hval.
    + rewrite Get_filled by assumption. eexists. split; [reflexivity|].
      split; [exact Hl|]. split; [exact Hf|]. intros _. apply Hv. reflexivity.
    + rewrite Get_empty by assumption.
      destruct (factory (ct s) ctx (world s)) as [[v [e|]] w]; cbn [fst snd];
        (eexists; split; [reflexivity|]); unfold settled; cbn;
        rewrite ?last_success_app; repeat split; auto; congruence.
  - unfold bind. rewrite Refresh_spec by assumption.
    destruct (factory (ct s) ctx (world s)) as [[v [e|]] w]; cbn [fst snd];
      (eexists; split; [reflexivity|]); unfold settled; cbn;
      rewrite ?last_success_app; repeat split; auto.
  - rewrite Invalidate_spec by assumption. eexists. split; [reflexivity|].
    unfold settled. cbn. repeat split; auto. discriminate.
  - unfold mutate. eexists. split; [reflexivity|].
    unfold settled. cbn. repeat split; auto.
Qed.

(** X4. Whatever calls of [Get], [Refresh] and [Invalidate] a new cache
    has seen, and however the source changed in between: every call has
    returned, the lock is free, the factory is the one given to [NewCache],
    and if the cache is valid it holds the value of the latest invocation
    that returned no error. *)
Theorem calls_keep_cache_settled zero (f : Factory T E Ctx World) w cs :
  exists s',
    calls_in_turn cs {| ct := NewCache zero f; world := w; trace := [] |}
      = Some (tt, s') /\
    lock (ct s') = RWMutex.zero /\
    factory (ct s') = f /\
    (valid (ct s') = true -> last_success (trace s') = Some (data (ct s'))).
Proof.
  assert (H : forall s, settled f s ->
                exists s', calls_in_turn cs s = Some (tt, s') /\ settled f s').
  { induction cs as [|c cs IH]; intros s Hs.
    - exists s. split; [reflexivity|assumption].
    - cbn [calls_in_turn]. unfold bind.
      destruct (call_settled f c s Hs) as (s1 & -> & Hs1).
      apply IH. exact Hs1. }
  apply H. repeat split; [discriminate].
Qed.

End CacheUse.

(** ** Concurrent callers of [Get], whatever the factory does *)
Section CacheAnyFactory.
Context {T E Ctx World : Type}.
Implicit Types (s : State T E Ctx World) (t : Thread T E Ctx)
  (ts : list (Thread T E Ctx)) (cf : Config T E Ctx World).

Lemma thread_sound_same s s' t :
  valid (ct s') = valid (ct s) -> data (ct s') = data (ct s) ->
  trace s' = trace s ->
  thread_sound s t -> thread_sound s' t.
Proof.
  intros Hv Hd Ht. unfold thread_sound, result_sound.
  destruct t as [c pc]; cbn [fst snd]. destruct pc; rewrite ?Hv, ?Hd, ?Ht; auto.
Qed.

Lemma thread_sound_frame s s' t :
  in_cs t = false ->
  (valid (ct s) = true -> valid (ct s') = true /\ data (ct s') = data (ct s)) ->
  (forall x, x ∈ trace s -> x ∈ trace s') ->
  thread_sound s t -> thread_sound s' t.
Proof.
  intros Hcs Hm Htr. unfold thread_sound, result_sound.
  destruct t as [c pc]; cbn [fst snd]. destruct pc; cbn in Hcs; try discriminate; auto.
  - intros H Hv. apply Hm, H, Hv.
  - intros H Hv. destruct (H Hv) as [H1 H2]. destruct (Hm H1) as [H3 H4].
    split; congruence.
  - destruct (snd r).
    + intros [v Hv]. exists v. apply Htr, Hv.
    + intros [H1 H2]. destruct (Hm H1) as [H3 H4]. split; congruence.
Qed.

Lemma Forall_sound_same s s' ts :
  valid (ct s') = valid (ct s) -> data (ct s') = data (ct s) ->
  trace s' = trace s ->
  Forall (thread_sound s) ts -> Forall (thread_sound s') ts.
Proof.
  intros Hv Hd Ht H. eapply Forall_impl; [exact H|].
  intros t. apply thread_sound_same; assumption.
Qed.

Lemma Forall_sound_frame s s' ts :
  count in_cs ts = 0 ->
  (valid (ct s) = true -> valid (ct s') = true /\ data (ct s') = data (ct s)) ->
  (forall x, x ∈ trace s -> x ∈ trace s') ->
  Forall (thread_sound s) ts -> Forall (thread_sound s') ts.
Proof.
  intros Hc Hm Htr Hok. apply count_zero in Hc.
  induction Hok as [|t ts Ht Hts IH]; constructor.
  - apply Forall_cons in Hc as [Hc _]. eapply thread_sound_frame; eassumption.
  - apply IH. apply Forall_cons in Hc as [_ Hc]. exact Hc.
Qed.

Ltac open_step H :=
  cbv [step_pc bind ret with_lock lock_RLock lock_RUnlock lock_Lock
       lock_Unlock get_valid get_data set_data set_valid call_factory
       RWMutex.RLock RWMutex.RUnlock RWMutex.Lock RWMutex.Unlock] in H;
  cbn [ct world trace lock data valid factory RWMutex.readers
       RWMutex.writer fst snd] in H.

Ltac proj :=
  cbn [ct world trace lock data valid factory RWMutex.readers
       RWMutex.writer fst snd in_cs in_rs past_factory].

Ltac rest_same :=
  eapply Forall_sound_same; [..|eassumption]; reflexivity.

Ltac rest_frame :=
  eapply Forall_sound_frame; [lia| | |eassumption]; proj;
  [intros; congruence | intros x Hx; rewrite ?elem_of_app; auto].

Ltac easy_goal :=
  try solve [assumption | lia | congruence | tauto | rest_same].

Lemma step_pc_Sound s ctx pc pc' s' l1 l2 :
  Sound (s, l1 ++ (ctx, pc) :: l2) ->
  step_pc ctx pc s = Some (pc', s') ->
  Sound (s', l1 ++ (ctx, pc') :: l2).
Proof.
  intros (Hc & Hl & Ht & Hn) Hstep.
  unfold Sound, lock_ok, calls in *. cbn [fst snd] in *.
  rewrite !count_app in *. cbn [count] in *.
  rewrite !Forall_app, !Forall_cons in *.
  destruct Ht as (Ht1 & Ht & Ht2).
  destruct Hl as (Hlw & Hlr & Hlx).
  destruct s as [[[rd wr] d v fa] w tr].
  unfold cache_sound in *. unfold thread_sound in Ht.
  unfold thread_sound at 2. unfold result_sound in *.
  cbn [ct world trace lock data valid factory RWMutex.readers RWMutex.writer
       fst snd in_cs in_rs past_factory] in *.
  destruct pc; open_step Hstep;
    cbn [in_cs in_rs past_factory snd fst] in Hlw, Hlr, Ht, Hn; proj.
  - (* RLock *)
    destruct wr; [discriminate|]. injection Hstep as <- <-. proj.
    repeat split; easy_goal.
  - (* valid := ct.valid *)
    injection Hstep as <- <-. proj. repeat split; easy_goal.
  - (* data := ct.data *)
    injection Hstep as <- <-. proj. repeat split; easy_goal.
  - (* RUnlock *)
    destruct rd as [|rd]; [discriminate|]. injection Hstep as <- <-.
    assert (wr = false) as ->
      by (destruct wr; [specialize (Hlx eq_refl)|]; congruence).
    destruct valid0; proj; [destruct (Ht eq_refl) as [-> ->]|];
      repeat split; easy_goal.
  - (* Lock *)
    destruct wr; [discriminate|]. destruct rd; [|discriminate].
    injection Hstep as <- <-. proj. repeat split; easy_goal.
  - (* if ct.valid *)
    destruct v; injection Hstep as <- <-; proj; repeat split; easy_goal.
  - (* ct.factory(ctx) *)
    subst v. destruct wr; [|lia].
    destruct (fa ctx w) as [[val [e|]] w1] eqn:Hf;
      cbn [fst snd] in Hstep; injection Hstep as <- <-; proj;
      rewrite ?length_app; cbn [length];
      repeat split; easy_goal; try rest_frame.
    + exists val. rewrite elem_of_app, list_elem_of_singleton. auto.
    + rewrite elem_of_app, list_elem_of_singleton. auto.
  - (* ct.data = value *)
    injection Hstep as <- <-. proj.
    destruct Ht as [Hv Htr]. destruct wr; [|lia].
    repeat split; easy_goal; try rest_frame.
  - (* ct.valid = true *)
    injection Hstep as <- <-. proj.
    destruct Ht as [Hv Htr]. destruct wr; [|lia].
    repeat split; easy_goal; try rest_frame.
    eexists. exact Htr.
  - (* Unlock *)
    destruct wr; [|discriminate]. injection Hstep as <- <-. proj.
    repeat split; easy_goal.
  - discriminate.
Qed.

Lemma run_Sound sch : forall cf cf',
  Sound cf -> run sch cf = Some cf' -> Sound cf'.
Proof.
  induction sch as [|i sch IH]; intros cf cf' HS Hr; cbn in Hr.
  - congruence.
  - destruct (step i cf) as [cf1|] eqn:Hs; [|discriminate].
    eapply IH; [|exact Hr]. clear Hr IH.
    destruct cf as [s ts], cf1 as [s1 ts1].
    apply step_inv in Hs as (ctx & pc & pc' & l1 & l2 & -> & _ & Hs & ->).
    eapply step_pc_Sound; eassumption.
Qed.

Lemma fresh_Sound zero (f : Factory T E Ctx World) w0 ctxs :
  Sound (fresh zero f w0 ctxs).
Proof.
  unfold Sound, fresh, cache_sound, lock_ok, calls. cbn.
  rewrite !count_fresh by reflexivity.
  repeat split; try discriminate; try lia.
  induction ctxs; cbn; constructor; [exact I|assumption].
Qed.

Lemma count_le_length {A} (p : A -> bool) (l : list A) :
  count p l <= length l.
Proof. induction l as [|x l IH]; cbn; [lia|]. destruct (p x); lia. Qed.

(** While a caller has not returned, some caller can move: the holder of
    the exclusive lock if there is one, else a holder of the shared lock,
    else anyone. *)
Lemma lock_ok_progress s ts :
  lock_ok (s, ts) ->
  forallb returned ts = false ->
  exists i cf', step i (s, ts) = Some cf'.
Proof.
  intros (Hlw & Hlr & Hlx) Hnr. cbn [fst snd] in *.
  assert (Hgo : forall i ctx pc,
             ts !! i = Some (ctx, pc) -> is_Some (step_pc ctx pc s) ->
             exists i cf', step i (s, ts) = Some cf').
  { intros i ctx pc Hi [[pc' s'] Hs]. exists i. unfold step. cbn [fst snd].
    rewrite Hi, Hs. eauto. }
  destruct s as [[[rd wr] d v fa] w tr].
  cbn [ct lock RWMutex.readers RWMutex.writer] in *.
  destruct wr.
  - destruct (count_pos in_cs ts) as (i & [ctx pc] & Hi & Hp); [lia|].
    apply (Hgo i ctx pc Hi).
    destruct pc; try discriminate Hp;
      cbv [step_pc bind ret with_lock lock_Unlock get_valid get_data set_data
           set_valid call_factory RWMutex.Unlock];
      cbn [ct world trace lock data valid factory RWMutex.readers
           RWMutex.writer fst snd];
      try (destruct v); try (destruct (fa ctx w) as [[? [?|]] ?]); cbn; eauto.
  - destruct rd as [|rd].
    + assert (Hex : exists i ctx pc, ts !! i = Some (ctx, pc) /\
                      returned (ctx, pc) = false /\
                      in_cs (ctx, pc) = false /\ in_rs (ctx, pc) = false).
      { apply count_zero in Hlw, Hlr.
        clear Hgo Hlx. induction ts as [|[ctx pc] ts IH]; [discriminate|].
        apply Forall_cons in Hlw as [Hc1 Hc2], Hlr as [Hr1 Hr2].
        cbn [forallb] in Hnr.
        destruct (returned (ctx, pc)) eqn:Hret.
        - destruct (IH Hc2 Hr2 Hnr) as (i & ctx' & pc' & Hi & H).
          exists (S i), ctx', pc'. split; [exact Hi|exact H].
        - exists 0, ctx, pc. repeat split; assumption. }
      destruct Hex as (i & ctx & pc & Hi & Hret & Hcs & Hrs).
      apply (Hgo i ctx pc Hi).
      destruct pc; try discriminate; cbn; eauto.
    + destruct (count_pos in_rs ts) as (i & [ctx pc] & Hi & Hp); [lia|].
      apply (Hgo i ctx pc Hi).
      destruct pc; try discriminate Hp; cbn; eauto.
Qed.

Lemma Sound_completes n : forall cf,
  Sound cf -> total_rank (snd cf) <= n ->
  exists sch cf', run sch cf = Some cf' /\ forallb returned (snd cf') = true.
Proof.
  induction n as [|n IH]; intros [s ts] HS Hn;
    (destruct (forallb returned ts) eqn:Hret;
     [exists [], (s, ts); split; [reflexivity|exact Hret]|]);
    destruct (lock_ok_progress s ts (proj1 (proj2 HS)) Hret) as (i & cf1 & Hs);
    pose proof (step_rank _ _ _ Hs) as Hlt; cbn [snd] in *; [lia|].
  destruct (IH cf1) as (sch & cf' & Hr & Hall); [|lia|].
  - apply (run_Sound [i] (s, ts)); [exact HS|]. cbn. rewrite Hs. reflexivity.
  - exists (i :: sch), cf'. cbn. rewrite Hs. split; assumption.
Qed.

(** X5. Callers of [Get] sharing a fresh cache, whatever the factory
    does.  They can all be run to their return, and in every interleaving:
    no schedule is longer than ten steps per caller; at most one caller is
    between [Lock] and [Unlock], and then none is between [RLock] and
    [RUnlock]; there are no more invocations of the factory than callers;
    and while a caller has not returned some caller can move. *)
Theorem Get_concurrent_discipline zero (f : Factory T E Ctx World) w0 ctxs :
  (exists sch s ts,
     run sch (fresh zero f w0 ctxs) = Some (s, ts) /\
     forallb returned ts = true) /\
  forall sch s ts,
    run sch (fresh zero f w0 ctxs) = Some (s, ts) ->
    length sch <= 10 * length ctxs /\
    count in_cs ts <= 1 /\
    (count in_cs ts = 1 -> count in_rs ts = 0) /\
    calls s <= length ctxs /\
    (forallb returned ts = false -> exists i cf', step i (s, ts) = Some cf').
Proof.
  pose proof (fresh_Sound zero f w0 ctxs) as HS0.
  split.
  - destruct (Sound_completes _ _ HS0 (le_n _)) as (sch & [s ts] & Hr & Hall).
    eauto.
  - intros sch s ts Hr.
    pose proof (run_Sound _ _ _ HS0 Hr) as (_ & (Hlw & Hlr & Hlx) & _ & Hn).
    pose proof (run_length _ _ _ Hr) as Hlen.
    cbn [fst snd fresh] in *. rewrite length_map in Hlen.
    split; [|split; [|split; [|split]]].
    + apply run_rank in Hr. rewrite total_rank_fresh in Hr. lia.
    + destruct (RWMutex.writer (lock (ct s))); lia.
    + intros H1. destruct (RWMutex.writer (lock (ct s))); [|lia].
      rewrite Hlr. apply Hlx. reflexivity.
    + pose proof (count_le_length past_factory ts). lia.
    + apply lock_ok_progress. repeat split; assumption.
Qed.

(** X6. In every interleaving of callers of [Get] on a fresh cache,
    whatever the factory does: a caller that has returned no error holds
    the value stored in the cache, which is valid and which an invocation
    on record produced; a caller that has returned an error got it from an
    invocation it made itself. *)
Theorem Get_concurrent_results_sound zero (f : Factory T E Ctx World) w0
    ctxs sch s ts :
  run sch (fresh zero f w0 ctxs) = Some (s, ts) ->
  (forall ctx d,
     (ctx, Returned (d, None)) ∈ ts ->
     valid (ct s) = true /\ d = data (ct s) /\
     exists c, (c, (d, None)) ∈ trace s) /\
  (forall ctx d e,
     (ctx, Returned (d, Some e)) ∈ ts ->
     exists v, (ctx, (v, Some e)) ∈ trace s).
Proof.
  intros Hr.
  pose proof (run_Sound _ _ _ (fresh_Sound zero f w0 ctxs) Hr)
    as (Hc & _ & Hts & _).
  cbn [fst snd] in *. rewrite Forall_forall in Hts.
  split.
  - intros ctx d Hin. destruct (Hts _ Hin) as [Hv Hd]. cbn in Hd. subst d.
    repeat split; auto.
  - intros ctx d e Hin. exact (Hts _ Hin).
Qed.

End CacheAnyFactory.

(** ** More on iterators and queries *)
Section QueryFacts.
Context {T E Ctx Arg : Type}.
Variable zero : T.
Variable noRow : E.
Implicit Types (it : Iterator.Iterator T E) (c : Cursor.t T E)
  (db : Gsql.QueryerContext T E Ctx Arg) (vs : list T).

(** What [append] after [append] makes of the nil slice. *)
Lemma foldl_append_Some (l vs : list T) :
  foldl append (Some l) vs = Some (l ++ vs).
Proof.
  revert l. induction vs as [|v vs IH]; intros l; cbn.
  - rewrite app_nil_r. reflexivity.
  - rewrite IH, <- app_assoc. reflexivity.
Qed.

Lemma foldl_append_None vs :
  foldl append None vs = match vs with [] => None | _ :: _ => Some vs end.
Proof. destruct vs as [|v vs]; [reflexivity|]. cbn. apply foldl_append_Some. Qed.

(** The loop of [Collect] on rows that all scan. *)
Lemma Collect_loop_all_rows vs : forall fuel result cur end_err,
  length vs < fuel ->
  Iterator.Collect_loop zero noRow fuel result
    {| Iterator.err := None;
       Iterator.rows :=
         Some {| Cursor.pending := map Cursor.ScanOk vs;
                 Cursor.current := cur; Cursor.lasterr := None;
                 Cursor.fault := end_err; Cursor.closes := 0 |} |}
  = Some (Returns (foldl append result vs, end_err),
          {| Iterator.err := None;
             Iterator.rows :=
               Some {| Cursor.pending := []; Cursor.current := None;
                       Cursor.lasterr := end_err;
                       Cursor.fault := end_err; Cursor.closes := 0 |} |}).
Proof.
  induction vs as [|v vs IH]; intros fuel result cur end_err Hlt;
    (destruct fuel as [|fuel]; [cbn in Hlt; lia|]).
  - reflexivity.
  - cbn. cbn in IH. apply IH. cbn in Hlt. lia.
Qed.

(** X7. [Collect] on a cursor whose rows all scan returns them in order
    together with the error the cursor ends with, and has closed the
    cursor once.  So rows fetched before the cursor failed are returned
    next to the error; and the slice is nil exactly when there was no
    row. *)
Theorem Collect_rows_then_end vs end_err :
  Iterator.Collect zero noRow
    (Gsql.Rows (Some (Cursor.open (map Cursor.ScanOk vs) end_err)))
  = Some (Returns (match vs with [] => None | _ :: _ => Some vs end, end_err),
          {| Iterator.err := None;
             Iterator.rows :=
               Some {| Cursor.pending := []; Cursor.current := None;
                       Cursor.lasterr := end_err;
                       Cursor.fault := end_err; Cursor.closes := 1 |} |}).
Proof.
  unfold Iterator.Collect, Gsql.Rows, Cursor.open.
  rewrite Collect_loop_all_rows by (cbn; rewrite length_map; lia).
  rewrite foldl_append_None. reflexivity.
Qed.

(** X8. [Collect] of [pkg/sql.go] on the iterator of a query that could
    not be started returns the nil slice and the error of the query, and
    does not panic. *)
Theorem Pkg_Collect_failed_query ctx db query args e :
  db ctx query args = inr e ->
  Pkg.Collect zero noRow (Gsql.Iterate ctx db query args)
  = Some (Returns (None, Some e), Gsql.Iterate ctx db query args).
Proof.
  intros Hdb. unfold Gsql.Iterate, Gsql.QueryxContext. rewrite Hdb. reflexivity.
Qed.

Lemma scanAll_Some (rs : list (Cursor.Row T E)) : forall end_err (l : list T),
  exists l', fst (Gsql.scanAll rs end_err (Some l)) = Some (l ++ l').
Proof.
  induction rs as [|[v|p e] rs IH]; intros end_err l; cbn.
  - exists []. rewrite app_nil_r. reflexivity.
  - destruct (IH end_err (l ++ [v])) as [l' Hl']. exists (v :: l').
    rewrite Hl', <- app_assoc. reflexivity.
  - exists []. rewrite app_nil_r. reflexivity.
Qed.

(** X9. [List] never returns the nil slice, whether the query fails, a
    row fails to scan, or all goes well. *)
Theorem List_never_nil ctx db query args :
  exists l, fst (Gsql.List ctx db query args) = Some l.
Proof.
  unfold Gsql.List, Gsql.SelectContext, Gsql.QueryxContext.
  destruct (db ctx query args) as [c|e]; [|eauto].
  destruct (scanAll_Some (Cursor.pending c) (Cursor.fault c) []) as [l Hl].
  eauto.
Qed.

Lemma scanAll_all_rows vs : forall (end_err : option E) (l : list T),
  Gsql.scanAll (map Cursor.ScanOk vs) end_err (Some l)
    = (Some (l ++ vs), end_err).
Proof.
  induction vs as [|v vs IH]; intros end_err l; cbn.
  - rewrite app_nil_r. reflexivity.
  - rewrite IH, <- app_assoc. reflexivity.
Qed.

Lemma scanAll_scan_error vs : forall partial (e : E) rest end_err (l : list T),
  Gsql.scanAll (map Cursor.ScanOk vs ++ Cursor.ScanFail partial e :: rest)
    end_err (Some l)
    = (Some (l ++ vs), Some e).
Proof.
  induction vs as [|v vs IH]; intros partial e rest end_err l; cbn.
  - rewrite app_nil_r. reflexivity.
  - rewrite IH, <- app_assoc. reflexivity.
Qed.



End QueryFacts.

(** ** Caches of queries *)
Section CachedQueries.
Context {T E Ctx Arg : Type}.
Variable zero : T.
Variable noRows : E.
Implicit Types (db : Gsql.QueryerContext T E Ctx Arg) (ctx : Ctx)
  (query : string) (args : list Arg).

(** X12. [CachedGet]: the first [Get] runs the query and returns its
    first row; later calls return that row without running the query,
    whatever the database holds by then. *)
Theorem CachedGet_caches_first_row ctx db query args c v rest
    (reqs : list ((Gsql.QueryerContext T E Ctx Arg ->
                   Gsql.QueryerContext T E Ctx Arg) * Ctx)) :
  db ctx query args = inl c ->
  Cursor.pending c = Cursor.ScanOk v :: rest ->
  exists s1 s2,
    Get ctx {| ct := Gsql.CachedGet zero noRows query args;
               world := db; trace := [] |}
      = Some ((v, None), s1) /\
    Gets reqs s1 = Some (replicate (length reqs) (v, None), s2) /\
    calls s2 = 1.
Proof.
  intros Hdb Hp. rewrite Get_empty by reflexivity.
  cbn [ct world trace factory Gsql.CachedGet NewCache].
  unfold Gsql.LazyGet, Gsql.Get, Gsql.GetContext, Gsql.QueryxContext.
  rewrite Hdb, Hp. cbn [fst snd].
  eexists _, _. split; [reflexivity|].
  rewrite Gets_filled by reflexivity. split; reflexivity.
Qed.

(** X13. [CachedGet] on a query without a row: [Get] returns the zero
    value and [sql.ErrNoRows] and caches nothing, so that a [Get] made once
    the row exists runs the query again and returns it. *)
Theorem CachedGet_no_rows_retried ctx ctx' db db' query args c v rest :
  db ctx query args = inl (Cursor.open [] None) ->
  db' ctx' query args = inl c ->
  Cursor.pending c = Cursor.ScanOk v :: rest ->
  exists s1 s2,
    Get ctx {| ct := Gsql.CachedGet zero noRows query args;
               world := db; trace := [] |}
      = Some ((zero, Some noRows), s1) /\
    valid (ct s1) = false /\
    Gets [(fun _ => db', ctx')] s1 = Some ([(v, None)], s2) /\
    valid (ct s2) = true /\
    calls s2 = 2.
Proof.
  intros Hdb Hdb' Hp. rewrite Get_empty by reflexivity.
  cbn [ct world trace factory Gsql.CachedGet NewCache].
  unfold Gsql.LazyGet at 1, Gsql.Get, Gsql.GetContext, Gsql.QueryxContext.
  rewrite Hdb. cbn [fst snd Cursor.open Cursor.pending Cursor.fault].
  eexists _, _. split; [reflexivity|]. split; [reflexivity|].
  cbn [Gets]. unfold bind at 1, mutate. unfold bind at 1.
  rewrite Get_empty by reflexivity.
  cbn [ct world trace factory Gsql.CachedGet NewCache].
  unfold Gsql.LazyGet at 1, Gsql.Get, Gsql.GetContext, Gsql.QueryxContext.
  rewrite Hdb', Hp. cbn [fst snd]. unfold bind, ret. cbn.
  split; [reflexivity|]. split; reflexivity.
Qed.

(** X14. [CachedList] on a query without a row caches the empty slice:
    later calls return it, not nil, without running the query. *)
Theorem CachedList_caches_empty_result ctx db query args
    (reqs : list ((Gsql.QueryerContext T E Ctx Arg ->
                   Gsql.QueryerContext T E Ctx Arg) * Ctx)) :
  db ctx query args = inl (Cursor.open [] None) ->
  exists s1 s2,
    Get ctx {| ct := Gsql.CachedList query args; world := db; trace := [] |}
      = Some ((Some [], None), s1) /\
    Gets reqs s1 = Some (replicate (length reqs) (Some [], None), s2) /\
    calls s2 = 1.
Proof.
  intros Hdb. rewrite Get_empty by reflexivity.
  cbn [ct world trace factory Gsql.CachedList NewCache].
  unfold Gsql.LazyList, Gsql.List, Gsql.SelectContext, Gsql.QueryxContext.
  rewrite Hdb. cbn [fst snd Cursor.open Cursor.pending Cursor.fault Gsql.scanAll].
  eexists _, _. split; [reflexivity|].
  rewrite Gets_filled by reflexivity. split; reflexivity.
Qed.

(** X15. When the named parameters cannot be bound, [List], [Get] and
    [Iterate] of a [NamedStatement] give the wrapped error whatever the
    executor is: [List] with the nil slice, [Get] with the zero value, and
    the iterator answers [false] to [Next] and the wrapped error to
    [Err]. *)
Theorem NamedStatement_prepare_failure {Params : Type}
    (Named : string -> Params -> (string * list Arg) + E) (wrap : E -> E)
    st ctx db (arg : Params) e :
  Named st arg = inr e ->
  NamedStatement.List Named wrap st ctx db arg = (None, Some (wrap e)) /\
  NamedStatement.Get Named wrap zero noRows st ctx db arg
    = (zero, Some (wrap e)) /\
  let it := NamedStatement.Iterate Named wrap st ctx db arg in
  Iterator.Next it = (Returns false, it) /\
  Iterator.Err it = (Returns (Some (wrap e)), it).
Proof.
  intros Hn. unfold NamedStatement.List, NamedStatement.Get,
    NamedStatement.Iterate. rewrite Hn. repeat split.
Qed.

End CachedQueries.

(** ** JSON columns *)
Section JSONFacts.
Context {T E Other : Type}.
Variable Marshal : T -> list Byte.byte * option E.
Variable Unmarshal : list Byte.byte -> T -> T * option E.
Variable unsupported : E.


End JSONFacts.

(** The theorems above, on [Examples]. *)
Lemma Get_fills_then_hits_witness :
  exists s1 s2,
    Get tt (Examples.invalidated Examples.reader 8) = Some ((8, None), s1) /\
    Gets [(fun _ => 9, tt); (fun _ => 10, tt)] s1
      = Some ([(8, None); (8, None)], s2) /\
    data (ct s2) = 8 /\ valid (ct s2) = true /\
    trace s2 = [(tt, (5, None)); (tt, (8, None))].
Proof.
  apply (Get_fills_then_hits tt [(fun _ => 9, tt); (fun _ => 10, tt)]
           (Examples.invalidated Examples.reader 8) 8 8); reflexivity.
Defined.

Lemma Refresh_then_Gets_witness :
  exists s1 s2,
    Refresh tt (Examples.filled Examples.reader 8) = Some (None, s1) /\
    Gets [(fun _ => 9, tt)] s1 = Some ([(8, None)], s2) /\
    data (ct s2) = 8 /\ valid (ct s2) = true /\
    trace s2 = [(tt, (5, None)); (tt, (8, None))].
Proof.
  apply (Refresh_then_Gets tt [(fun _ => 9, tt)]
           (Examples.filled Examples.reader 8) 8 8); reflexivity.
Defined.

Lemma Gets_errors_not_cached_witness :
  exists rs s',
    Gets [(fun w => w, tt); (fun w => w, tt); (fun w => w, tt)]
      (Examples.invalidated Examples.failing 9) = Some (rs, s') /\
    ct s' = ct (Examples.invalidated Examples.failing 9) /\
    calls s' = 1 + 3 /\
    length rs = 3 /\
    Forall (fun r => fst r = 5 /\ snd r <> None) rs.
Proof.
  apply (Gets_errors_not_cached
           [(fun w => w, tt); (fun w => w, tt); (fun w => w, tt)]
           (Examples.invalidated Examples.failing 9)).
  - reflexivity.
  - reflexivity.
  - intros ctx w. discriminate.
Defined.

Lemma Get_concurrent_results_sound_witness :
  exists s ts,
    run Examples.racing (fresh 0 Examples.failing 0 [tt; tt]) = Some (s, ts) /\
    (forall ctx d,
       (ctx, Returned (d, None)) ∈ ts ->
       valid (ct s) = true /\ d = data (ct s) /\
       exists c, (c, (d, None)) ∈ trace s) /\
    (forall ctx d e,
       (ctx, Returned (d, Some e)) ∈ ts ->
       exists v, (ctx, (v, Some e)) ∈ trace s).
Proof.
  eexists _, _. split; [vm_compute; reflexivity|].
  apply (Get_concurrent_results_sound 0 Examples.failing 0 [tt; tt]
           Examples.racing).
  vm_compute. reflexivity.
Defined.

Lemma Pkg_Collect_failed_query_witness :
  Pkg.Collect 0 1 (Gsql.Iterate tt Examples.db "bad"%string [])
  = Some (Returns (None, Some 3), Gsql.Iterate tt Examples.db "bad"%string []).
Proof.
  apply (Pkg_Collect_failed_query 0 1 tt Examples.db "bad"%string [] 3).
  reflexivity.
Defined.



Lemma CachedGet_caches_first_row_witness :
  exists s1 s2,
    Get tt {| ct := Gsql.CachedGet 0 2 "all"%string [];
              world := Examples.db; trace := [] |}
      = Some ((1, None), s1) /\
    Gets [(fun _ => Examples.db_after, tt)] s1 = Some ([(1, None)], s2) /\
    calls s2 = 1.
Proof.
  apply (CachedGet_caches_first_row 0 2 tt Examples.db "all"%string []
           (Cursor.open [Cursor.ScanOk 1; Cursor.ScanOk 2; Cursor.ScanOk 3] None)
           1 [Cursor.ScanOk 2; Cursor.ScanOk 3]
           [(fun _ => Examples.db_after, tt)]); reflexivity.
Defined.

Lemma CachedGet_no_rows_retried_witness :
  exists s1 s2,
    Get tt {| ct := Gsql.CachedGet 0 2 "none"%string [];
              world := Examples.db; trace := [] |}
      = Some ((0, Some 2), s1) /\
    valid (ct s1) = false /\
    Gets [(fun _ => Examples.db_after, tt)] s1 = Some ([(7, None)], s2) /\
    valid (ct s2) = true /\
    calls s2 = 2.
Proof.
  apply (CachedGet_no_rows_retried 0 2 tt tt Examples.db Examples.db_after
           "none"%string [] (Cursor.open [Cursor.ScanOk 7] None) 7 []);
    reflexivity.
Defined.

Lemma CachedList_caches_empty_result_witness :
  exists s1 s2,
    Get tt {| ct := Gsql.CachedList "none"%string [];
              world := Examples.db; trace := [] |}
      = Some ((Some [], None), s1) /\
    Gets [(fun _ => Examples.db_after, tt)] s1 = Some ([(Some [], None)], s2) /\
    calls s2 = 1.
Proof.
  apply (CachedList_caches_empty_result tt Examples.db "none"%string []
           [(fun _ => Examples.db_after, tt)]); reflexivity.
Defined.

Lemma NamedStatement_prepare_failure_witness :
  NamedStatement.List Examples.Named Examples.wrap "q"%string tt Examples.db false
    = (None, Some 104) /\
  NamedStatement.Get Examples.Named Examples.wrap 0 2 "q"%string tt Examples.db
      false
    = (0, Some 104) /\
  let it := NamedStatement.Iterate Examples.Named Examples.wrap "q"%string tt
              Examples.db false in
  Iterator.Next it = (Returns false, it) /\
  Iterator.Err it = (Returns (Some 104), it).
Proof.
  apply (NamedStatement_prepare_failure 0 2 Examples.Named Examples.wrap
           "q"%string tt Examples.db false 4).
  reflexivity.
Defined.

